(** * Order fulfilment saga: order service, inventory service, shipping service

    A shallow embedding of the three TypeScript services and of the in-process
    event bus that connects them, followed by the properties of the saga.

    Conventions of the embedding.
    - A JavaScript [number] is a binary64 floating-point number.  The
      quantities of the services are kept as integers [Z], and the two
      operations the code performs on them, [+] and [-], round their exact
      result to binary64 ([js_add], [js_sub]): they are exact on safe integers
      (magnitude at most 2^53 - 1), lose the low bits beyond, and overflow
      to [Infinity]; the infinities and [NaN] that these operations can
      produce are represented, fractions are not.  [js_add] and [js_sub] are
      checked against the binary64 arithmetic of the kernel on sample numbers
      ([js_arithmetic_is_binary64]).  A [Date] is the reading of a clock, a
      [Z]; the code only stores it.
    - Every service keeps its records in a [Map] keyed by a string: a
      [gmap string _].  The objects stored in these maps are mutated in place
      by the code; an object is reached only through its map, so an in-place
      mutation is an update of the entry under the key used to find it.
    - [eventBus.publish] is [EventEmitter.emit]: it calls the subscribed
      handlers synchronously before it returns.  A publication is therefore
      the call of the handler, plus a line in the trace [published].
    - [handleOrderPlaced] is an [async] function that suspends at the start of
      every loop iteration.  A suspended invocation is a [Task]; the event
      loop resumes one of them at a time, in any order. *)

From stdpp Require Import base option list strings gmap.
From Stdlib Require Import ZArith Lia.
From Stdlib Require Uint63 PrimFloat SpecFloat FloatOps.

Local Open Scope Z_scope.

(** ** JavaScript numbers *)

(** [Number.MAX_SAFE_INTEGER], 2^53 - 1. *)
Definition MAX_SAFE_INTEGER : Z := 9007199254740991.

(** [Number.isSafeInteger]. *)
Definition safe_integer (z : Z) : Prop := - MAX_SAFE_INTEGER ≤ z ≤ MAX_SAFE_INTEGER.

(** The numbers of the embedding are the integers among the binary64 numbers,
    the two infinities and [NaN].  [Infinity] is kept as 2^1024, the least
    power of two beyond the binary64 numbers, [-Infinity] as its opposite, and
    [NaN] as an integer below both.  The comparisons of the code, [x >= y] and
    [x > y] with [y] a quantity passed to a service or [0], are false when [x]
    is [NaN]: they are the comparisons of [Z]. *)
Definition Infinity : Z := 2 ^ 1024.

Definition NaN : Z := - 2 ^ 1025.

(** [Number.isFinite]. *)
Definition is_finite (z : Z) : Prop := - Infinity < z < Infinity.

(** The binary64 number nearest to the integer [z]; of two nearest ones, the
    one with the even significand.  An integer of magnitude below 2^53 is a
    binary64 number.  A larger one has [Z.log2 (Z.abs z) + 1] bits and keeps
    the leading 53 of them, the significand [m]; the [e] low bits dropped,
    [r], round it up when they are more than half a unit of [m] (the bit
    [e - 1] alone), or exactly half a unit with [m] odd.  (When [m + 1] is
    2^53 the result is the next power of two.)  A result of magnitude 2^1024
    or more overflows to an infinity. *)
Definition round64 (z : Z) : Z :=
  let a := Z.abs z in
  if a <=? MAX_SAFE_INTEGER then z
  else
    let e := Z.log2 a - 52 in
    let m := Z.shiftr a e in
    let r := Z.land a (Z.ones e) in
    let half := Z.shiftl 1 (e - 1) in
    let m' := if (r <? half) || ((r =? half) && Z.even m) then m else m + 1 in
    let v := Z.shiftl m' e in
    if Infinity <=? v then Z.sgn z * Infinity else Z.sgn z * v.

(** [x + y] and [x - y] on JavaScript numbers: [NaN] when an operand is
    [NaN] or when two infinities cancel, the infinite operand when there is
    one, and the rounded exact result otherwise. *)
Definition js_add (x y : Z) : Z :=
  if (x =? NaN) || (y =? NaN) then NaN
  else if Z.abs x =? Infinity then (if y =? - x then NaN else x)
  else if Z.abs y =? Infinity then y
  else round64 (x + y).

Definition js_sub (x y : Z) : Z :=
  if (x =? NaN) || (y =? NaN) then NaN
  else if Z.abs x =? Infinity then (if y =? x then NaN else x)
  else if Z.abs y =? Infinity then - y
  else round64 (x - y).

(** The integers that stand for a JavaScript number. *)
Definition js_number (z : Z) : Prop := z = NaN ∨ round64 z = z.

Arguments Infinity : simpl never.
Arguments NaN : simpl never.
Arguments round64 : simpl never.
Arguments js_add : simpl never.
Arguments js_sub : simpl never.

(** The same two operations computed by the binary64 arithmetic of the proof
    assistant's kernel (IEEE 754, round to nearest even, as JavaScript's):
    the numbers are converted to floats, the operation is done on floats, and
    the result is read back.  [binary64_of] is exact on the integers that are
    binary64 numbers (it keeps the 53 leading bits of the others). *)
Definition binary64_of (z : Z) : PrimFloat.float :=
  if z =? NaN then PrimFloat.nan
  else if z =? Infinity then PrimFloat.infinity
  else if z =? - Infinity then PrimFloat.neg_infinity
  else
    let a := Z.abs z in
    let e := Z.max 0 (Z.log2 a - 52) in
    let f := FloatOps.Z.ldexp (PrimFloat.of_uint63 (Uint63.of_Z (Z.shiftr a e))) e in
    if z <? 0 then PrimFloat.opp f else f.

Definition integer_of (f : PrimFloat.float) : option Z :=
  match FloatOps.Prim2SF f with
  | SpecFloat.S754_zero _ => Some 0
  | SpecFloat.S754_infinity sign => Some (if sign then - Infinity else Infinity)
  | SpecFloat.S754_nan => Some NaN
  | SpecFloat.S754_finite sign m e =>
      let a := if 0 <=? e then Some (Z.shiftl (Z.pos m) e)
               else if Z.land (Z.pos m) (Z.ones (- e)) =? 0 then Some (Z.shiftr (Z.pos m) (- e))
               else None in
      (λ a, if sign then - a else a) <$> a
  end.

Definition binary64_agrees (x y : Z) : bool :=
  bool_decide (integer_of (binary64_of x) = Some x)
  && bool_decide (integer_of (binary64_of y) = Some y)
  && bool_decide (integer_of (PrimFloat.add (binary64_of x) (binary64_of y))
                  = Some (js_add x y))
  && bool_decide (integer_of (PrimFloat.sub (binary64_of x) (binary64_of y))
                  = Some (js_sub x y)).

(** Sample numbers: small integers; binary64 integers on both sides of
    2^53; the large quantities of the scenarios below; binary64 integers
    around 2^60; the largest binary64 number, 2^1023, and half and a quarter
    of the gap between the largest numbers; all the large ones with both
    signs; the infinities and [NaN]. *)
Definition binary64_samples : list Z :=
  let positive :=
    [2 ^ 53 - 2; 2 ^ 53 - 1; 2 ^ 53; 2 ^ 53 + 2; 2 ^ 53 + 4; 2 ^ 53 + 6;
     9007199254741000; 9007199254741002; 18014398509481984;
     2 ^ 60 - 128; 2 ^ 60; 2 ^ 60 + 256;
     Z.shiftl (2 ^ 53 - 1) 971; Z.shiftl 1 1023; Z.shiftl 1 970; Z.shiftl 1 969] in
  [-3; -1; 0; 1; 2; 3; 7] ++ positive ++ (Z.opp <$> positive) ++ [Infinity; - Infinity; NaN].

(** ** Data model *)

(** [OrderItem] (orderService.ts): one requested, granted or refused line. *)
Record OrderItem := mkOrderItem {
  productId : string;
  quantity : Z
}.

(** [OrderStatus]; the last three are the terminal ones. *)
Inductive OrderStatus := pending | processing | partial | fulfilled | cancelled.

(** [Order] (orderService.ts). *)
Record Order := mkOrder {
  order_id : string;
  order_items : list OrderItem;
  status : OrderStatus;
  fulfillableItems : list OrderItem;
  unfulfillableItems : list OrderItem;
  createdAt : Z;
  updatedAt : Z
}.

(** [InventoryItem] (inventoryService.ts). *)
Record InventoryItem := mkInventoryItem {
  inv_productId : string;
  inv_quantity : Z;
  inv_reserved : Z
}.

(** [ShipmentStatus] and [ShipmentItem] (shippingService.ts). *)
Inductive ShipmentStatus := ship_pending | shipped | delivered.

Record ShipmentItem := mkShipmentItem {
  ship_orderId : string;
  ship_productId : string;
  ship_quantity : Z;
  ship_status : ShipmentStatus;
  ship_updatedAt : Z
}.

(** The events of shared/eventBus.ts, one constructor per [type] tag. *)
Inductive Event :=
| OrderPlaced (orderId : string) (items : list OrderItem)
| StockReserved (orderId : string) (items : list OrderItem)
| OutOfStock (orderId pid : string) (requestedQuantity availableQuantity : Z)
| OrderReadyForShipping (orderId : string) (items : list OrderItem)
| ItemShipped (orderId pid : string) (qty : Z)
| ItemDelivered (orderId pid : string) (qty : Z).

(** The result of [tryReserveStock]. *)
Record ReserveResult := mkReserveResult {
  success : bool;
  availableQuantity : Z
}.

(** A suspended invocation of [InventoryService.handleOrderPlaced]: the lines
    the [for] loop has not reached yet and the local array [reservations].
    The invocation's [orderId] is the key under which it is kept: order
    identifiers are drawn by [uuidv4], so there is one invocation per
    identifier. *)
Record Task := mkTask {
  task_pending : list OrderItem;
  task_reservations : list OrderItem
}.

(** The state of the process: the three services' maps, the lock table, the
    trace of published events, the clock and the suspended invocations. *)
Record State := mkState {
  orders : gmap string Order;
  inventory : gmap string InventoryItem;
  lockMap : gmap string bool;
  shipments : gmap string (list ShipmentItem);
  published : list Event;
  now : Z;
  tasks : gmap string Task
}.

Definition set_orders (f : gmap string Order → gmap string Order) (s : State) : State :=
  mkState (f (orders s)) (inventory s) (lockMap s) (shipments s) (published s) (now s) (tasks s).

Definition set_inventory (f : gmap string InventoryItem → gmap string InventoryItem)
    (s : State) : State :=
  mkState (orders s) (f (inventory s)) (lockMap s) (shipments s) (published s) (now s) (tasks s).

Definition set_lockMap (f : gmap string bool → gmap string bool) (s : State) : State :=
  mkState (orders s) (inventory s) (f (lockMap s)) (shipments s) (published s) (now s) (tasks s).

Definition set_shipments
    (f : gmap string (list ShipmentItem) → gmap string (list ShipmentItem)) (s : State) : State :=
  mkState (orders s) (inventory s) (lockMap s) (f (shipments s)) (published s) (now s) (tasks s).

Definition set_tasks (f : gmap string Task → gmap string Task) (s : State) : State :=
  mkState (orders s) (inventory s) (lockMap s) (shipments s) (published s) (now s) (f (tasks s)).

Definition set_now (t : Z) (s : State) : State :=
  mkState (orders s) (inventory s) (lockMap s) (shipments s) (published s) t (tasks s).

(** The bus trace: events in the order of their publication. *)
Definition record_event (e : Event) (s : State) : State :=
  mkState (orders s) (inventory s) (lockMap s) (shipments s) (published s ++ [e]) (now s) (tasks s).

(** ** Shipping service *)

(** [ShippingService.handleOrderReadyForShipping]: one pending shipment line
    per item, stored under the order id.  The timers started by
    [processShipment] only advance the status of these lines later on. *)
Definition handleOrderReadyForShipping (orderId : string) (items : list OrderItem)
    (s : State) : State :=
  let shipmentItems :=
    map (λ item, mkShipmentItem orderId (productId item) (quantity item) ship_pending (now s))
        items in
  set_shipments <[orderId := shipmentItems]> s.

Definition getShipments (orderId : string) (s : State) : option (list ShipmentItem) :=
  shipments s !! orderId.

Definition publishOrderReadyForShipping (orderId : string) (items : list OrderItem)
    (s : State) : State :=
  handleOrderReadyForShipping orderId items (record_event (OrderReadyForShipping orderId items) s).

(** ** Order service: the saga *)

Definition is_terminal (st : OrderStatus) : bool :=
  match st with
  | partial | fulfilled | cancelled => true
  | pending | processing => false
  end.

(** [OrderService.isOrderComplete]. *)
Definition isOrderComplete (order : Order) : bool :=
  (length (fulfillableItems order) + length (unfulfillableItems order) =? length (order_items order))%nat.

Definition with_status (st : OrderStatus) (t : Z) (o : Order) : Order :=
  mkOrder (order_id o) (order_items o) st (fulfillableItems o) (unfulfillableItems o)
          (createdAt o) t.

(** [OrderService.updateOrderStatus]. *)
Definition updateOrderStatus (orderId : string) (st : OrderStatus) (s : State) : State :=
  match orders s !! orderId with
  | Some order => set_orders <[orderId := with_status st (now s) order]> s
  | None => s
  end.

(** [OrderService.getOrder]. *)
Definition getOrder (orderId : string) (s : State) : option Order :=
  orders s !! orderId.

(** [OrderService.handleStockReserved]. *)
Definition handleStockReserved (orderId : string) (items : list OrderItem) (s : State) : State :=
  match orders s !! orderId with
  | None => s
  | Some order =>
      let order1 :=
        mkOrder (order_id order) (order_items order) (status order)
                (fulfillableItems order ++ items) (unfulfillableItems order)
                (createdAt order) (now s) in
      let s1 := set_orders <[orderId := order1]> s in
      if isOrderComplete order1 then
        let s2 := publishOrderReadyForShipping (order_id order1) (fulfillableItems order1) s1 in
        updateOrderStatus (order_id order1)
          (if (0 <? length (unfulfillableItems order1))%nat then partial else fulfilled) s2
      else s1
  end.

(** [OrderService.handleOutOfStock]. *)
Definition handleOutOfStock (orderId pid : string) (requested available : Z) (s : State) : State :=
  match orders s !! orderId with
  | None => s
  | Some order =>
      let unfulfillableItem := mkOrderItem pid (js_sub requested available) in
      let fulfillable1 :=
        if 0 <? available
        then fulfillableItems order ++ [mkOrderItem pid available]
        else fulfillableItems order in
      let order1 :=
        mkOrder (order_id order) (order_items order) (status order)
                fulfillable1 (unfulfillableItems order ++ [unfulfillableItem])
                (createdAt order) (now s) in
      let s1 := set_orders <[orderId := order1]> s in
      if isOrderComplete order1 then
        let s2 :=
          if (0 <? length (fulfillableItems order1))%nat
          then publishOrderReadyForShipping (order_id order1) (fulfillableItems order1) s1
          else s1 in
        updateOrderStatus (order_id order1)
          (if (0 <? length (fulfillableItems order1))%nat then partial else cancelled) s2
      else s1
  end.

Definition publishStockReserved (orderId : string) (items : list OrderItem) (s : State) : State :=
  handleStockReserved orderId items (record_event (StockReserved orderId items) s).

Definition publishOutOfStock (orderId pid : string) (requested available : Z) (s : State) : State :=
  handleOutOfStock orderId pid requested available
    (record_event (OutOfStock orderId pid requested available) s).

(** ** Inventory service *)

(** [InventoryService.addInventory]. *)
Definition addInventory (pid : string) (q : Z) (s : State) : State :=
  match inventory s !! pid with
  | Some item =>
      set_inventory <[pid := mkInventoryItem (inv_productId item)
                                              (js_add (inv_quantity item) q)
                                              (inv_reserved item)]> s
  | None => set_inventory <[pid := mkInventoryItem pid q 0]> s
  end.

(** [InventoryService.initializeInventory]. *)
Definition initializeInventory (s : State) : State :=
  addInventory "PROD-3" 15 (addInventory "PROD-2" 5 (addInventory "PROD-1" 10 s)).

Definition getInventory (pid : string) (s : State) : option InventoryItem :=
  inventory s !! pid.

(** [InventoryService.releaseStock]. *)
Definition releaseStock (pid : string) (q : Z) (s : State) : State :=
  match inventory s !! pid with
  | Some item =>
      if q <=? inv_reserved item
      then set_inventory <[pid := mkInventoryItem (inv_productId item) (inv_quantity item)
                                                   (js_sub (inv_reserved item) q)]> s
      else s
  | None => s
  end.

(** [InventoryService.tryReserveStock].  The function first polls the lock of
    the product; [None] is the poll that finds the lock taken (the caller stays
    suspended and polls again later).  From the poll that finds the lock free
    to the [return] the body runs without suspension: the flag is set, the
    record is read and possibly updated, and the [finally] block clears the
    flag. *)
Definition tryReserveStock (pid : string) (q : Z) (s : State)
    : option (ReserveResult * State) :=
  match lockMap s !! pid with
  | Some true => None
  | _ =>
      let s1 := set_lockMap <[pid := true]> s in
      let finally := set_lockMap <[pid := false]> in
      match inventory s1 !! pid with
      | None => Some (mkReserveResult false 0, finally s1)
      | Some item =>
          let available := js_sub (inv_quantity item) (inv_reserved item) in
          if q <=? available
          then Some (mkReserveResult true available,
                     finally (set_inventory
                                <[pid := mkInventoryItem (inv_productId item) (inv_quantity item)
                                                          (js_add (inv_reserved item) q)]> s1))
          else Some (mkReserveResult false available, finally s1)
      end
  end.

(** The part of [handleOrderPlaced] that follows the loop. *)
Definition handleOrderPlaced_finish (orderId : string) (reservations : list OrderItem)
    (s : State) : State :=
  if (0 <? length reservations)%nat then publishStockReserved orderId reservations s else s.

(** One iteration of the loop of [handleOrderPlaced] on the first pending line,
    followed by the code after the loop when that line was the last one.  The
    iteration starts when its pacing timer fires; the promise of
    [tryReserveStock] is settled by the time it is awaited, so the rest of the
    iteration runs in the same turn of the event loop.  When the poll of
    [tryReserveStock] finds the lock taken the invocation stays suspended as
    it is.  Nothing in the [try] block throws, so the [catch] branch is not
    taken.  No invocation is suspended without a pending line. *)
Definition handleOrderPlaced_resume (orderId : string) (t : Task) (s : State) : State :=
  match task_pending t with
  | [] => set_tasks (delete orderId) s
  | item :: rest =>
      match tryReserveStock (productId item) (quantity item) s with
      | None => s
      | Some (reserved, s1) =>
          let reservations :=
            if success reserved
            then task_reservations t ++ [mkOrderItem (productId item) (quantity item)]
            else task_reservations t in
          let s2 :=
            if success reserved then s1
            else publishOutOfStock orderId (productId item) (quantity item)
                   (availableQuantity reserved) s1 in
          match rest with
          | [] => set_tasks (delete orderId) (handleOrderPlaced_finish orderId reservations s2)
          | _ :: _ => set_tasks <[orderId := mkTask rest reservations]> s2
          end
      end
  end.

(** The call of [handleOrderPlaced] made by the bus: it runs up to the first
    suspension point, which is the first thing in the loop body.  With no line
    at all the loop is skipped and the function returns at once. *)
Definition handleOrderPlaced (orderId : string) (items : list OrderItem) (s : State) : State :=
  match items with
  | [] => handleOrderPlaced_finish orderId [] s
  | _ :: _ => set_tasks <[orderId := mkTask items []]> s
  end.

Definition publishOrderPlaced (orderId : string) (items : list OrderItem) (s : State) : State :=
  handleOrderPlaced orderId items (record_event (OrderPlaced orderId items) s).

(** [EventBus.publish] with the subscriptions made by the three constructors. *)
Definition publish (e : Event) (s : State) : State :=
  match e with
  | OrderPlaced orderId items => publishOrderPlaced orderId items s
  | StockReserved orderId items => publishStockReserved orderId items s
  | OutOfStock orderId pid requested available =>
      publishOutOfStock orderId pid requested available s
  | OrderReadyForShipping orderId items => publishOrderReadyForShipping orderId items s
  | ItemShipped _ _ _ | ItemDelivered _ _ _ => record_event e s
  end.

(** [OrderService.createOrder].  [id] is the identifier drawn by [uuidv4()].
    The function returns the order object it stored, which is the entry of
    [orders] under [id] in the resulting state. *)
Definition createOrder (id : string) (items : list OrderItem) (s : State) : State :=
  let order := mkOrder id items pending [] [] (now s) (now s) in
  let s1 := set_orders <[id := order]> s in
  let s2 := publishOrderPlaced (order_id order) (order_items order) s1 in
  updateOrderStatus (order_id order) processing s2.

(** ** The process *)

(** The services right after construction (index.ts). *)
Definition initial : State :=
  initializeInventory (mkState ∅ ∅ ∅ ∅ [] 0 ∅).

(** What the event loop can run next. *)
Inductive Action :=
| CreateOrder (id : string) (items : list OrderItem)
| Resume (orderId : string)
| AddInventory (pid : string) (q : Z)
| ReleaseStock (pid : string) (q : Z)
| Tick (t : Z).

Definition run_action (a : Action) (s : State) : State :=
  match a with
  | CreateOrder id items => createOrder id items s
  | Resume orderId =>
      match tasks s !! orderId with
      | Some t => handleOrderPlaced_resume orderId t s
      | None => s
      end
  | AddInventory pid q => addInventory pid q s
  | ReleaseStock pid q => releaseStock pid q s
  | Tick t => set_now t s
  end.

Definition run (acts : list Action) (s : State) : State :=
  foldl (λ s a, run_action a s) s acts.

(** A turn of the event loop taken by the order service or the inventory
    service: a call of their public functions, or the resumption of a
    suspended [handleOrderPlaced].  [uuidv4] never returns an identifier
    twice: an order is created under an identifier that is not in use.  The
    turns of the shipping service are added by [turn] below. *)
Inductive step : State → State → Prop :=
| step_create id items s :
    orders s !! id = None → step s (createOrder id items s)
| step_resume orderId s : step s (run_action (Resume orderId) s)
| step_add pid q s : step s (addInventory pid q s)
| step_release pid q s : step s (releaseStock pid q s)
| step_tick t s : step s (set_now t s).

(** ** Calls on the inventory ledger *)

(** A call made on the inventory ledger.  The calls of concurrent orders reach
    the ledger one after the other: between the poll that finds the lock free
    and the [return] of [tryReserveStock] nothing else runs, and
    [releaseStock] does not suspend at all.  An interleaving of the calls of
    any number of orders is therefore a list of calls. *)
Inductive StockCall :=
| Reserve (pid : string) (q : Z)
| Release (pid : string) (q : Z).



Definition stock_call (c : StockCall) (s : State) : State :=
  match c with
  | Reserve pid q =>
      match tryReserveStock pid q s with
      | Some (_, s') => s'
      | None => s
      end
  | Release pid q => releaseStock pid q s
  end.








(** ** The ledger's events of one order and the outcomes of its lines *)

(** The events the inventory service publishes about order [orderId]. *)
Definition ledger_event_of (orderId : string) (e : Event) : bool :=
  match e with
  | StockReserved o _ | OutOfStock o _ _ _ => bool_decide (o = orderId)
  | _ => false
  end.

Definition ledger_events (orderId : string) (l : list Event) : list Event :=
  filter (λ e, ledger_event_of orderId e) l.

(** An [OutOfStock] event about order [orderId] that reports some available
    stock makes the saga split the line; every other event passes this test. *)
Definition no_split_event (orderId : string) (e : Event) : bool :=
  match e with
  | OutOfStock o _ _ available => negb (bool_decide (o = orderId)) || (available <=? 0)
  | _ => true
  end.

(** The outcomes of an order are the lines that the loop of
    [handleOrderPlaced] has dealt with so far, in the order in which it dealt
    with them, each with the result [tryReserveStock] gave for it.  The local
    array [reservations] after these outcomes: *)
Definition granted_lines (outs : list (OrderItem * ReserveResult)) : list OrderItem :=
  omap (λ x, if success x.2 then Some x.1 else None) outs.

(** The [OutOfStock] events published for these outcomes. *)
Definition refused_events (orderId : string) (outs : list (OrderItem * ReserveResult)) : list Event :=
  omap (λ x, if success x.2 then None
             else Some (OutOfStock orderId (productId x.1) (quantity x.1) (availableQuantity x.2)))
       outs.

(** The [StockReserved] event: published after the loop, when something was
    granted. *)
Definition stock_reserved_event (orderId : string) (pending granted : list OrderItem)
    : list Event :=
  match pending, granted with
  | [], _ :: _ => [StockReserved orderId granted]
  | _, _ => []
  end.

(** What the saga books for these outcomes: the missing part of every refused
    line, and the available part of the refused lines that found some stock. *)
Definition unfulfillable_of (outs : list (OrderItem * ReserveResult)) : list OrderItem :=
  omap (λ x, if success x.2 then None
             else Some (mkOrderItem (productId x.1)
                          (js_sub (quantity x.1) (availableQuantity x.2))))
       outs.

Definition split_of (outs : list (OrderItem * ReserveResult)) : list OrderItem :=
  omap (λ x, if success x.2 then None
             else if 0 <? availableQuantity x.2
                  then Some (mkOrderItem (productId x.1) (availableQuantity x.2))
                  else None)
       outs.

(** The status of an order whose lines were all granted in full or refused
    without any stock at all, once every line has been dealt with. *)
Definition settled_status (outs : list (OrderItem * ReserveResult)) : OrderStatus :=
  match granted_lines outs, unfulfillable_of outs with
  | [], [] => processing
  | [], _ :: _ => cancelled
  | _ :: _, [] => fulfilled
  | _ :: _, _ :: _ => partial
  end.

(** The effect of the two saga handlers on the order they find. *)
Definition saga_outOfStock (pid : string) (requested available : Z) (t : Z) (o : Order) : Order :=
  let o1 :=
    mkOrder (order_id o) (order_items o) (status o)
            (if 0 <? available
             then fulfillableItems o ++ [mkOrderItem pid available]
             else fulfillableItems o)
            (unfulfillableItems o ++ [mkOrderItem pid (js_sub requested available)])
            (createdAt o) t in
  if isOrderComplete o1
  then with_status (if (0 <? length (fulfillableItems o1))%nat then partial else cancelled) t o1
  else o1.

Definition saga_stockReserved (items : list OrderItem) (t : Z) (o : Order) : Order :=
  let o1 :=
    mkOrder (order_id o) (order_items o) (status o)
            (fulfillableItems o ++ items) (unfulfillableItems o) (createdAt o) t in
  if isOrderComplete o1
  then with_status (if (0 <? length (unfulfillableItems o1))%nat then partial else fulfilled) t o1
  else o1.

(** The lines of order [orderId] that the inventory service has not reached. *)
Definition pending_of (orderId : string) (s : State) : list OrderItem :=
  match tasks s !! orderId with
  | Some t => task_pending t
  | None => []
  end.

(** How an order stored under [orderId] relates to the suspended invocation
    that works on it (if it is still there), to the ledger's events about it
    and to the outcomes [outs] of the lines dealt with so far. *)
Record order_inv (task : option Task) (events : list Event)
    (orderId : string) (o : Order) (outs : list (OrderItem * ReserveResult)) : Prop := {
  oi_id : order_id o = orderId;
  oi_items : order_items o = outs.*1 ++ from_option task_pending [] task;
  oi_task : ∀ t, task = Some t →
            task_pending t ≠ [] ∧ task_reservations t = granted_lines outs;
  oi_events : events =
              refused_events orderId outs
                ++ stock_reserved_event orderId (from_option task_pending [] task)
                     (granted_lines outs);
  oi_unfulfillable : unfulfillableItems o = unfulfillable_of outs;
  oi_fulfillable : fulfillableItems o =
                   split_of outs ++ (if task is Some _ then [] else granted_lines outs);
  oi_not_pending : status o ≠ pending;
  oi_terminal : is_terminal (status o) →
                (length (order_items o)
                   ≤ length (fulfillableItems o) + length (unfulfillableItems o))%nat;
  oi_settled : split_of outs = [] →
               status o = if task is Some _ then processing else settled_status outs
}.

(** How the order stored under an identifier may differ after a turn of the
    event loop: identity, requested lines and creation time stay, and the
    status either stays or moves from [processing] to a terminal status. *)
Definition order_step (o o' : Order) : Prop :=
  order_id o' = order_id o
  ∧ order_items o' = order_items o
  ∧ createdAt o' = createdAt o
  ∧ (status o' = status o ∨ (status o = processing ∧ is_terminal (status o') = true)).

(** The invariant of the process. *)
Record saga_inv (s : State) : Prop := {
  si_locks : ∀ pid, lockMap s !! pid ≠ Some true;
  si_unknown : ∀ orderId, orders s !! orderId = None →
               tasks s !! orderId = None ∧ ledger_events orderId (published s) = [];
  si_orders : ∀ orderId o, orders s !! orderId = Some o →
              ∃ outs, order_inv (tasks s !! orderId) (ledger_events orderId (published s))
                        orderId o outs
}.

(** ** Scenarios *)

(** Scenario B of the test suite right after [createOrder] has returned. *)
Definition scenarioB_items : list OrderItem :=
  [mkOrderItem "PROD-2" 7; mkOrderItem "PROD-3" 3].

Definition scenarioB_placed : State := createOrder "order-B" scenarioB_items initial.

Definition unknown_product_placed : State :=
  createOrder "order-U" [mkOrderItem "PROD-9" 4] initial.


(** Scenario B after the first line (7 of PROD-2, 5 in stock) and after the
    second line (3 of PROD-3). *)
Definition scenarioB_refused : State := run_action (Resume "order-B") scenarioB_placed.

Definition scenarioB_final : State := run_action (Resume "order-B") scenarioB_refused.

(** Scenario A of the test suite, run to the end. *)
Definition scenarioA_items : list OrderItem :=
  [mkOrderItem "PROD-1" 2; mkOrderItem "PROD-2" 1].

Definition scenarioA_final : State :=
  run [CreateOrder "order-A" scenarioA_items; Resume "order-A"; Resume "order-A"] initial.

(** The order for a product without a record, once its only line is dealt
    with, and an order without lines. *)
Definition unknown_product_final : State :=
  run_action (Resume "order-U") unknown_product_placed.

Definition empty_order_placed : State := createOrder "order-E" [] initial.

(** ** Shipment progress *)

Definition with_ship_status (st : ShipmentStatus) (t : Z) (l : ShipmentItem) : ShipmentItem :=
  mkShipmentItem (ship_orderId l) (ship_productId l) (ship_quantity l) st t.

(** [ShippingService.processShipment] on the line at index [i] of the entry
    of [orderId].  The function is started for every line by
    [handleOrderReadyForShipping] and suspends on a timer twice: while the line
    is [ship_pending] the first timer is outstanding, while it is [shipped]
    the second one is, and once it is [delivered] the function has returned.
    The resumption after either timer is one turn of the event loop.  The line
    object held by the timer is the one in the array stored under [orderId]:
    that entry is written once per order, as proved below. *)
Definition processShipment_resume (orderId : string) (i : nat) (s : State) : State :=
  match shipments s !! orderId with
  | None => s
  | Some lines =>
      match lines !! i with
      | None => s
      | Some item =>
          match ship_status item with
          | ship_pending =>
              publish (ItemShipped (ship_orderId item) (ship_productId item) (ship_quantity item))
                (set_shipments <[orderId := <[i := with_ship_status shipped (now s) item]> lines]> s)
          | shipped =>
              publish (ItemDelivered (ship_orderId item) (ship_productId item) (ship_quantity item))
                (set_shipments <[orderId := <[i := with_ship_status delivered (now s) item]> lines]> s)
          | delivered => s
          end
      end
  end.

(** A turn of the event loop of the whole process: a turn of the order or
    inventory service, or the resumption of a shipment after one of its
    timers.  The states of the process are those reached from [initial] by
    such turns. *)
Inductive turn : State → State → Prop :=
| turn_step s s' : step s s' → turn s s'
| turn_shipment orderId i s : turn s (processShipment_resume orderId i s).

Definition process_reachable (s : State) : Prop := rtc turn initial s.

(** The order line a shipment line was made from, and the shipment lines
    [handleOrderReadyForShipping] makes from order lines. *)
Definition shipment_line_item (l : ShipmentItem) : OrderItem :=
  mkOrderItem (ship_productId l) (ship_quantity l).

Definition shipment_lines (orderId : string) (t : Z) (items : list OrderItem)
    : list ShipmentItem :=
  map (λ item, mkShipmentItem orderId (productId item) (quantity item) ship_pending t) items.

(** The events about order [orderId], by type. *)
Definition ready_event_of (orderId : string) (e : Event) : bool :=
  match e with
  | OrderReadyForShipping o _ => bool_decide (o = orderId)
  | _ => false
  end.

Definition shipped_event_of (orderId : string) (e : Event) : bool :=
  match e with
  | ItemShipped o _ _ => bool_decide (o = orderId)
  | _ => false
  end.

Definition delivered_event_of (orderId : string) (e : Event) : bool :=
  match e with
  | ItemDelivered o _ _ => bool_decide (o = orderId)
  | _ => false
  end.

Definition ready_events (orderId : string) (l : list Event) : list Event :=
  filter (λ e, ready_event_of orderId e) l.

Definition shipped_events (orderId : string) (l : list Event) : list Event :=
  filter (λ e, shipped_event_of orderId e) l.

Definition delivered_events (orderId : string) (l : list Event) : list Event :=
  filter (λ e, delivered_event_of orderId e) l.

(** How far a shipment line has got. *)
Definition line_shipped (l : ShipmentItem) : nat :=
  match ship_status l with ship_pending => 0 | shipped | delivered => 1 end.

Definition line_delivered (l : ShipmentItem) : nat :=
  match ship_status l with ship_pending | shipped => 0 | delivered => 1 end.

Definition line_progress (l : ShipmentItem) : nat := line_shipped l + line_delivered l.

(** The order has at least as many outcome records as requested lines. *)
Definition overfull (o : Order) : Prop :=
  (length (order_items o) ≤ length (fulfillableItems o) + length (unfulfillableItems o))%nat.

(** How the shipment entry of an order and the events about its shipment
    relate to the order. *)
Definition ship_rel (orderId : string) (entry : option (list ShipmentItem))
    (trace : list Event) (o : Order) : Prop :=
  match entry with
  | None =>
      (status o = processing ∨ status o = cancelled)
      ∧ ready_events orderId trace = []
      ∧ shipped_events orderId trace = []
      ∧ delivered_events orderId trace = []
  | Some lines =>
      (status o = partial ∨ status o = fulfilled)
      ∧ lines ≠ []
      ∧ Forall (λ l, ship_orderId l = orderId) lines
      ∧ shipment_line_item <$> lines `prefix_of` fulfillableItems o
      ∧ ready_events orderId trace =
          [OrderReadyForShipping orderId (shipment_line_item <$> lines)]
      ∧ length (shipped_events orderId trace) = sum_list (line_shipped <$> lines)
      ∧ length (delivered_events orderId trace) = sum_list (line_delivered <$> lines)
  end.

(** The invariant that links the shipping service to the saga. *)
Record shipping_inv (s : State) : Prop := {
  shi_unknown : ∀ orderId, orders s !! orderId = None →
                shipments s !! orderId = None
                ∧ ready_events orderId (published s) = []
                ∧ shipped_events orderId (published s) = []
                ∧ delivered_events orderId (published s) = [];
  shi_orders : ∀ orderId o, orders s !! orderId = Some o →
               order_id o = orderId
               ∧ (is_terminal (status o) → overfull o)
               ∧ ship_rel orderId (shipments s !! orderId) (published s) o
}.

(** How an order may differ after any number of turns: [order_step], and the
    accounting lists only grow at their end. *)
Definition order_grows (o o' : Order) : Prop :=
  order_step o o'
  ∧ fulfillableItems o `prefix_of` fulfillableItems o'
  ∧ unfulfillableItems o `prefix_of` unfulfillableItems o'.

(** How a shipment line may differ after any number of turns. *)
Definition line_advances (l l' : ShipmentItem) : Prop :=
  ship_orderId l' = ship_orderId l
  ∧ ship_productId l' = ship_productId l
  ∧ ship_quantity l' = ship_quantity l
  ∧ (line_progress l ≤ line_progress l')%nat.

(** ** Runs with quantities that are not negative *)


Definition is_addInventory (a : Action) : bool :=
  match a with AddInventory _ _ => true | _ => false end.



(** ** Refusals and grants in the trace *)

Definition refusal_of (orderId : string) (e : Event) : bool :=
  match e with
  | OutOfStock o _ _ _ => bool_decide (o = orderId)
  | _ => false
  end.

Definition grant_of (orderId : string) (e : Event) : bool :=
  match e with
  | StockReserved o _ => bool_decide (o = orderId)
  | _ => false
  end.

(** ** More scenarios *)

(** Scenario C of the test suite: two orders for the same product, the
    second one reaching the ledger first. *)
Definition concurrent_orders : list Action :=
  [CreateOrder "order-1" [mkOrderItem "PROD-1" 7];
   CreateOrder "order-2" [mkOrderItem "PROD-1" 5];
   Resume "order-2"; Resume "order-1"].

(** Scenario B once the timers of its shipment line have both fired. *)
Definition scenarioB_delivered : State :=
  processShipment_resume "order-B" 0 (processShipment_resume "order-B" 0 scenarioB_final).

(** An order for 7 of PROD-2 (5 in stock), just placed. *)
Definition short_stock_placed : State :=
  createOrder "order-S" [mkOrderItem "PROD-2" 7] initial.

(** ** Quantities beyond the safe integers *)



(** An order for 2^53 + 2 units of PROD-2, placed when 1 unit of it is left. *)
Definition large_order : list Action :=
  [CreateOrder "order-1" [mkOrderItem "PROD-2" 4]; Resume "order-1";
   CreateOrder "order-L" [mkOrderItem "PROD-2" 9007199254740994]; Resume "order-L"].

(** ** JavaScript numbers: arithmetic on safe integers is exact *)

Lemma number_codes : NaN < - Infinity ∧ MAX_SAFE_INTEGER < Infinity.
Proof. split; vm_compute; reflexivity. Qed.

Lemma round64_safe (z : Z) : safe_integer z → round64 z = z.
Proof.
  unfold safe_integer, round64. intros Hz. cbv zeta.
  destruct (Z.leb_spec (Z.abs z) MAX_SAFE_INTEGER); [done|lia].
Qed.

Lemma safe_is_finite (z : Z) : safe_integer z → is_finite z.
Proof. destruct number_codes. unfold safe_integer, is_finite. lia. Qed.

Lemma js_add_exact (x y : Z) :
  is_finite x → is_finite y → safe_integer (x + y) → js_add x y = x + y.
Proof.
  destruct number_codes as [Hnan _]. unfold is_finite, js_add. intros Hx Hy Hxy.
  destruct (Z.eqb_spec x NaN); [lia|]. destruct (Z.eqb_spec y NaN); [lia|]. cbn [orb].
  destruct (Z.eqb_spec (Z.abs x) Infinity); [lia|].
  destruct (Z.eqb_spec (Z.abs y) Infinity); [lia|].
  by apply round64_safe.
Qed.

Lemma js_sub_exact (x y : Z) :
  is_finite x → is_finite y → safe_integer (x - y) → js_sub x y = x - y.
Proof.
  destruct number_codes as [Hnan _]. unfold is_finite, js_sub. intros Hx Hy Hxy.
  destruct (Z.eqb_spec x NaN); [lia|]. destruct (Z.eqb_spec y NaN); [lia|]. cbn [orb].
  destruct (Z.eqb_spec (Z.abs x) Infinity); [lia|].
  destruct (Z.eqb_spec (Z.abs y) Infinity); [lia|].
  by apply round64_safe.
Qed.

Lemma js_add_safe (x y : Z) :
  safe_integer x → safe_integer y → safe_integer (x + y) → js_add x y = x + y.
Proof. intros. apply js_add_exact; auto using safe_is_finite. Qed.

Lemma js_sub_safe (x y : Z) :
  safe_integer x → safe_integer y → safe_integer (x - y) → js_sub x y = x - y.
Proof. intros. apply js_sub_exact; auto using safe_is_finite. Qed.

Lemma js_sub_0 (x : Z) : js_number x → js_sub x 0 = x.
Proof.
  destruct number_codes as [Hnan Hinf]. unfold MAX_SAFE_INTEGER in Hinf.
  unfold js_number, js_sub. intros [->|Hx].
  - by rewrite Z.eqb_refl.
  - destruct (Z.eqb_spec x NaN) as [->|_]; [done|].
    destruct (Z.eqb_spec 0 NaN); [lia|]. cbn [orb].
    destruct (Z.eqb_spec (Z.abs x) Infinity).
    + destruct (Z.eqb_spec 0 x); [lia|done].
    + destruct (Z.eqb_spec (Z.abs 0) Infinity); [lia|]. by rewrite Z.sub_0_r.
Qed.

(** [js_add] and [js_sub] give what the binary64 arithmetic of the kernel
    gives, on every pair of the sample numbers. *)
Lemma js_arithmetic_is_binary64 (x y : Z) :
  x ∈ binary64_samples → y ∈ binary64_samples → binary64_agrees x y = true.
Proof.
  assert (forallb (λ x, forallb (binary64_agrees x) binary64_samples) binary64_samples = true)
    as Hall by (vm_compute; reflexivity).
  rewrite forallb_forall in Hall. intros Hx%list_elem_of_In Hy%list_elem_of_In.
  specialize (Hall x Hx). rewrite forallb_forall in Hall. by apply Hall.
Qed.

(** ** Elementary facts about the handlers *)

Section frame.
Implicit Types (s : State) (orderId pid : string) (items : list OrderItem).

Lemma updateOrderStatus_lookup orderId st s k :
  orders (updateOrderStatus orderId st s) !! k =
    if decide (orderId = k)
    then with_status st (now s) <$> orders s !! k
    else orders s !! k.
Proof.
  unfold updateOrderStatus.
  destruct (orders s !! orderId) as [o|] eqn:E; cbn.
  - rewrite lookup_insert. destruct (decide (orderId = k)) as [<-|]; [by rewrite E|done].
  - destruct (decide (orderId = k)) as [<-|]; [by rewrite E|done].
Qed.

Lemma updateOrderStatus_frame orderId st s :
  inventory (updateOrderStatus orderId st s) = inventory s
  ∧ lockMap (updateOrderStatus orderId st s) = lockMap s
  ∧ shipments (updateOrderStatus orderId st s) = shipments s
  ∧ published (updateOrderStatus orderId st s) = published s
  ∧ now (updateOrderStatus orderId st s) = now s
  ∧ tasks (updateOrderStatus orderId st s) = tasks s.
Proof. unfold updateOrderStatus. by destruct (orders s !! orderId). Qed.

(** The saga handlers leave the inventory, the locks, the clock and the
    suspended invocations alone. *)
Lemma handleStockReserved_frame orderId items s :
  inventory (handleStockReserved orderId items s) = inventory s
  ∧ lockMap (handleStockReserved orderId items s) = lockMap s
  ∧ now (handleStockReserved orderId items s) = now s
  ∧ tasks (handleStockReserved orderId items s) = tasks s.
Proof.
  unfold handleStockReserved.
  destruct (orders s !! orderId) as [o|]; [|done].
  cbv zeta. destruct (isOrderComplete _); [|done].
  match goal with |- context [updateOrderStatus ?a ?b ?c] =>
    destruct (updateOrderStatus_frame a b c) as (-> & -> & _ & _ & -> & ->) end.
  done.
Qed.

Lemma handleOutOfStock_frame orderId pid req av s :
  inventory (handleOutOfStock orderId pid req av s) = inventory s
  ∧ lockMap (handleOutOfStock orderId pid req av s) = lockMap s
  ∧ now (handleOutOfStock orderId pid req av s) = now s
  ∧ tasks (handleOutOfStock orderId pid req av s) = tasks s.
Proof.
  unfold handleOutOfStock.
  destruct (orders s !! orderId) as [o|]; [|done].
  cbv zeta. destruct (isOrderComplete _); [|done].
  match goal with |- context [updateOrderStatus ?a ?b ?c] =>
    destruct (updateOrderStatus_frame a b c) as (-> & -> & _ & _ & -> & ->) end.
  by destruct (0 <? length _)%nat.
Qed.

(** [tryReserveStock] in a state where the lock of the product is free. *)
Lemma tryReserveStock_free pid q s :
  lockMap s !! pid ≠ Some true →
  tryReserveStock pid q s =
    match inventory s !! pid with
    | None => Some (mkReserveResult false 0, set_lockMap <[pid := false]> (set_lockMap <[pid := true]> s))
    | Some item =>
        if q <=? js_sub (inv_quantity item) (inv_reserved item)
        then Some (mkReserveResult true (js_sub (inv_quantity item) (inv_reserved item)),
                   set_lockMap <[pid := false]>
                     (set_inventory <[pid := mkInventoryItem (inv_productId item)
                                              (inv_quantity item)
                                              (js_add (inv_reserved item) q)]>
                        (set_lockMap <[pid := true]> s)))
        else Some (mkReserveResult false (js_sub (inv_quantity item) (inv_reserved item)),
                   set_lockMap <[pid := false]> (set_lockMap <[pid := true]> s))
    end.
Proof.
  intros Hfree. unfold tryReserveStock.
  destruct (lockMap s !! pid) as [[]|]; done.
Qed.
End frame.

(** ** Reservation (C6) *)




(** ** The saga's handling of [OutOfStock] (C7) *)

Lemma handleOutOfStock_lists (orderId pid : string) (requested available : Z)
    (s : State) (order : Order) :
  orders s !! orderId = Some order →
  ∃ order',
    orders (handleOutOfStock orderId pid requested available s) !! orderId = Some order'
    ∧ order_id order' = order_id order
    ∧ order_items order' = order_items order
    ∧ unfulfillableItems order' =
        unfulfillableItems order ++ [mkOrderItem pid (js_sub requested available)]
    ∧ fulfillableItems order' =
        if 0 <? available
        then fulfillableItems order ++ [mkOrderItem pid available]
        else fulfillableItems order.
Proof.
  intros Hord. unfold handleOutOfStock. rewrite Hord. cbv zeta.
  destruct (isOrderComplete _); [|cbn; rewrite lookup_insert_eq; eauto 10].
  rewrite updateOrderStatus_lookup.
  destruct (0 <? length _)%nat; cbn; rewrite lookup_insert_eq;
    destruct (decide _); cbn; eauto 10.
Qed.

(** C7 (amended).  The delivery of
    [OutOfStock(orderId, productId, requested, available)] for a known order
    appends exactly one line to the order's unfulfillable list, whose
    quantity is the binary64 difference [requested - available] (the exact
    difference whenever the two are finite and it is a safe integer), and,
    exactly when
    [available > 0], one line of quantity [available] for the same product to
    its fulfillable list.  This holds whatever the order's status is, so in
    particular for an order that is not terminal. *)
Theorem outOfStock_accounting (orderId pid : string) (requested available : Z)
    (s : State) (order : Order) :
  orders s !! orderId = Some order →
  ∃ order',
    orders (publish (OutOfStock orderId pid requested available) s) !! orderId = Some order'
    ∧ unfulfillableItems order' =
        unfulfillableItems order ++ [mkOrderItem pid (js_sub requested available)]
    ∧ (is_finite requested → is_finite available →
       safe_integer (requested - available) →
       js_sub requested available = requested - available)
    ∧ (0 < available →
         fulfillableItems order' = fulfillableItems order ++ [mkOrderItem pid available])
    ∧ (available ≤ 0 → fulfillableItems order' = fulfillableItems order).
Proof.
  intros Hord. cbn [publish]. unfold publishOutOfStock.
  destruct (handleOutOfStock_lists orderId pid requested available
              (record_event (OutOfStock orderId pid requested available) s) order Hord)
    as (order' & Hlk & _ & _ & Hu & Hf).
  exists order'. split; [exact Hlk|]. split; [exact Hu|].
  split; [apply js_sub_exact|].
  split; intros Hav; rewrite Hf.
  - by destruct (Z.ltb_spec 0 available); [|lia].
  - by destruct (Z.ltb_spec 0 available); [lia|].
Qed.

Lemma outOfStock_accounting_witness :
  ∃ order',
    orders (publish (OutOfStock "order-B" "PROD-2" 7 5) scenarioB_placed) !! "order-B"
      = Some order'
    ∧ unfulfillableItems order' = [] ++ [mkOrderItem "PROD-2" (js_sub 7 5)]
    ∧ (is_finite 7 → is_finite 5 → safe_integer (7 - 5) → js_sub 7 5 = 7 - 5)
    ∧ (0 < 5 → fulfillableItems order' = [] ++ [mkOrderItem "PROD-2" 5])
    ∧ (5 ≤ 0 → fulfillableItems order' = []).
Proof.
  apply (outOfStock_accounting "order-B" "PROD-2" 7 5 scenarioB_placed
           (mkOrder "order-B" scenarioB_items processing [] [] 0 0)).
  vm_compute. reflexivity.
Defined.

(** C7, as stated, fails on the code.  An order for 2^53 + 2 units of PROD-2,
    of which one unit is left, is refused with [available = 1]; the saga
    books 1 unit as fulfillable and 2^53 units as unfulfillable, not
    2^53 + 1: the binary64 difference of 2^53 + 2 and 1 is 2^53. *)
Lemma outOfStock_difference_rounded :
  published (run large_order initial) =
    [OrderPlaced "order-1" [mkOrderItem "PROD-2" 4];
     StockReserved "order-1" [mkOrderItem "PROD-2" 4];
     OrderReadyForShipping "order-1" [mkOrderItem "PROD-2" 4];
     OrderPlaced "order-L" [mkOrderItem "PROD-2" 9007199254740994];
     OutOfStock "order-L" "PROD-2" 9007199254740994 1]
  ∧ (unfulfillableItems <$> getOrder "order-L" (run large_order initial))
    = Some [mkOrderItem "PROD-2" 9007199254740992]
  ∧ (fulfillableItems <$> getOrder "order-L" (run large_order initial))
    = Some [mkOrderItem "PROD-2" 1]
  ∧ 9007199254740992 ≠ 9007199254740994 - 1.
Proof.
  split; [vm_compute; reflexivity|].
  split; [vm_compute; reflexivity|].
  split; [vm_compute; reflexivity|]. lia.
Qed.

(** ** [createOrder] (C8) *)

Lemma publishOrderPlaced_frame (orderId : string) (items : list OrderItem) (s : State) :
  orders (publishOrderPlaced orderId items s) = orders s
  ∧ inventory (publishOrderPlaced orderId items s) = inventory s
  ∧ lockMap (publishOrderPlaced orderId items s) = lockMap s
  ∧ shipments (publishOrderPlaced orderId items s) = shipments s
  ∧ now (publishOrderPlaced orderId items s) = now s
  ∧ published (publishOrderPlaced orderId items s) = published s ++ [OrderPlaced orderId items].
Proof. unfold publishOrderPlaced, handleOrderPlaced. by destruct items. Qed.

Lemma createOrder_lookup (id : string) (items : list OrderItem) (s : State) :
  orders (createOrder id items s) =
    <[id := mkOrder id items processing [] [] (now s) (now s)]> (orders s).
Proof.
  unfold createOrder. cbn [order_id order_items].
  apply map_eq. intros k. rewrite updateOrderStatus_lookup.
  destruct (publishOrderPlaced_frame id items
              (set_orders <[id := mkOrder id items pending [] [] (now s) (now s)]> s))
    as (-> & _ & _ & _ & -> & _).
  cbn. destruct (decide (id = k)) as [<-|Hne].
  - by rewrite !lookup_insert_eq.
  - by rewrite !lookup_insert_ne.
Qed.

(** C8. For every list of items and in every state (so whatever the stock is
    and whatever the reservations will give), the order returned by
    [createOrder] has status [processing], and it is the order that
    [getOrder] finds under the identifier assigned to it. *)
Theorem createOrder_returns_processing (id : string) (items : list OrderItem) (s : State) :
  ∃ order,
    getOrder id (createOrder id items s) = Some order
    ∧ order_id order = id
    ∧ order_items order = items
    ∧ status order = processing
    ∧ status order ≠ pending.
Proof.
  unfold getOrder. rewrite createOrder_lookup, lookup_insert_eq.
  eexists. split; [reflexivity|]. done.
Qed.

(** ** A product without a record (C9) *)

(** C9. When the product of the line reached by the loop has no inventory
    record (the quantity of the line being a JavaScript number, as every
    quantity the code receives is), [tryReserveStock] reports failure with
    [availableQuantity = 0] and
    the inventory is as before (no record is created); the loop iteration then
    publishes [OutOfStock] with [available = 0], and the saga appends the whole
    requested quantity of the line to the unfulfillable list of the order and
    nothing to its fulfillable list. *)
Theorem unknown_product_unfulfillable (orderId : string) (item : OrderItem)
    (rest reservations : list OrderItem) (s : State) (order : Order) :
  js_number (quantity item) →
  inventory s !! productId item = None →
  lockMap s !! productId item ≠ Some true →
  orders s !! orderId = Some order →
  ∃ s1 s2 order',
    tryReserveStock (productId item) (quantity item) s = Some (mkReserveResult false 0, s1)
    ∧ inventory s1 = inventory s
    ∧ orders s1 = orders s
    ∧ s2 = publish (OutOfStock orderId (productId item) (quantity item) 0) s1
    ∧ handleOrderPlaced_resume orderId (mkTask (item :: rest) reservations) s =
        match rest with
        | [] => set_tasks (delete orderId) (handleOrderPlaced_finish orderId reservations s2)
        | _ :: _ => set_tasks <[orderId := mkTask rest reservations]> s2
        end
    ∧ inventory s2 = inventory s
    ∧ orders s2 !! orderId = Some order'
    ∧ unfulfillableItems order' =
        unfulfillableItems order ++ [mkOrderItem (productId item) (quantity item)]
    ∧ fulfillableItems order' = fulfillableItems order.
Proof.
  intros Hnum Hinv Hfree Hord.
  pose proof (tryReserveStock_free (productId item) (quantity item) s Hfree) as Htry.
  rewrite Hinv in Htry.
  set (s1 := set_lockMap <[productId item := false]>
               (set_lockMap <[productId item := true]> s)) in *.
  destruct (handleOutOfStock_lists orderId (productId item) (quantity item) 0
              (record_event (OutOfStock orderId (productId item) (quantity item) 0) s1)
              order Hord) as (order' & Hlk & _ & _ & Hu & Hf).
  exists s1, (publish (OutOfStock orderId (productId item) (quantity item) 0) s1), order'.
  split; [exact Htry|]. split; [done|]. split; [done|]. split; [done|].
  split.
  { unfold handleOrderPlaced_resume. cbn [task_pending task_reservations].
    rewrite Htry. cbn [success availableQuantity publish]. by destruct rest. }
  split.
  { cbn [publish]. unfold publishOutOfStock.
    by destruct (handleOutOfStock_frame orderId (productId item) (quantity item) 0
                   (record_event (OutOfStock orderId (productId item) (quantity item) 0) s1))
      as (-> & _). }
  split; [exact Hlk|].
  split.
  - rewrite Hu. by rewrite js_sub_0.
  - exact Hf.
Qed.

Lemma unknown_product_unfulfillable_witness :
  ∃ s1 s2 order',
    tryReserveStock "PROD-9" 4 unknown_product_placed = Some (mkReserveResult false 0, s1)
    ∧ inventory s1 = inventory unknown_product_placed
    ∧ orders s1 = orders unknown_product_placed
    ∧ s2 = publish (OutOfStock "order-U" "PROD-9" 4 0) s1
    ∧ handleOrderPlaced_resume "order-U" (mkTask [mkOrderItem "PROD-9" 4] [])
        unknown_product_placed =
        set_tasks (delete "order-U") (handleOrderPlaced_finish "order-U" [] s2)
    ∧ inventory s2 = inventory unknown_product_placed
    ∧ orders s2 !! "order-U" = Some order'
    ∧ unfulfillableItems order' = [] ++ [mkOrderItem "PROD-9" 4]
    ∧ fulfillableItems order' = [].
Proof.
  apply (unknown_product_unfulfillable "order-U" (mkOrderItem "PROD-9" 4) [] []
           unknown_product_placed
           (mkOrder "order-U" [mkOrderItem "PROD-9" 4] processing [] [] 0 0)).
  - right. reflexivity.
  - vm_compute. reflexivity.
  - vm_compute. discriminate.
  - vm_compute. reflexivity.
Defined.

(** ** No oversell (C1) *)


Lemma stock_call_absent (pid : string) (c : StockCall) (s : State) :
  inventory s !! pid = None → inventory (stock_call c s) !! pid = None.
Proof.
  intros Hnone. destruct c as [p q|p q]; cbn [stock_call].
  - unfold tryReserveStock.
    destruct (lockMap s !! p) as [[]|]; cbn [inventory set_lockMap]; try done.
    all: destruct (inventory s !! p) as [it|] eqn:Hp; cbn; [|done].
    all: destruct (q <=? _); cbn; [|done].
    all: rewrite lookup_insert_ne; [done|congruence].
  - unfold releaseStock. destruct (inventory s !! p) as [it|] eqn:Hp; [|done].
    destruct (q <=? _); cbn; [|done].
    rewrite lookup_insert_ne; [done|congruence].
Qed.











(** ** The saga handlers as functions on the order they find *)

Lemma ledger_events_app (k : string) (l1 l2 : list Event) :
  ledger_events k (l1 ++ l2) = ledger_events k l1 ++ ledger_events k l2.
Proof. apply filter_app. Qed.

Lemma ledger_events_ready (k orderId : string) (items : list OrderItem) :
  ledger_events k [OrderReadyForShipping orderId items] = [].
Proof. reflexivity. Qed.

Lemma ledger_events_placed (k orderId : string) (items : list OrderItem) :
  ledger_events k [OrderPlaced orderId items] = [].
Proof. reflexivity. Qed.

Lemma ledger_events_outOfStock (k orderId pid : string) (req av : Z) :
  ledger_events k [OutOfStock orderId pid req av] =
    if decide (orderId = k) then [OutOfStock orderId pid req av] else [].
Proof.
  unfold ledger_events. rewrite filter_cons. cbn [ledger_event_of].
  destruct (decide (orderId = k)) as [->|Hne].
  - rewrite decide_True; [done|]. by apply bool_decide_pack.
  - rewrite decide_False; [done|]. by intros ?%bool_decide_unpack.
Qed.

Lemma ledger_events_stockReserved (k orderId : string) (items : list OrderItem) :
  ledger_events k [StockReserved orderId items] =
    if decide (orderId = k) then [StockReserved orderId items] else [].
Proof.
  unfold ledger_events. rewrite filter_cons. cbn [ledger_event_of].
  destruct (decide (orderId = k)) as [->|Hne].
  - rewrite decide_True; [done|]. by apply bool_decide_pack.
  - rewrite decide_False; [done|]. by intros ?%bool_decide_unpack.
Qed.

Lemma handleOutOfStock_orders (orderId pid : string) (req av : Z) (s : State) (o : Order) :
  orders s !! orderId = Some o →
  order_id o = orderId →
  orders (handleOutOfStock orderId pid req av s) =
    <[orderId := saga_outOfStock pid req av (now s) o]> (orders s).
Proof.
  intros Hord Hid. unfold handleOutOfStock, saga_outOfStock. rewrite Hord. cbv zeta.
  destruct (isOrderComplete _); [|done].
  cbn [order_id]. rewrite Hid. unfold updateOrderStatus.
  destruct (0 <? length _)%nat; cbn; rewrite lookup_insert_eq; cbn;
    by rewrite insert_insert_eq.
Qed.

Lemma handleStockReserved_orders (orderId : string) (items : list OrderItem)
    (s : State) (o : Order) :
  orders s !! orderId = Some o →
  order_id o = orderId →
  orders (handleStockReserved orderId items s) =
    <[orderId := saga_stockReserved items (now s) o]> (orders s).
Proof.
  intros Hord Hid. unfold handleStockReserved, saga_stockReserved. rewrite Hord. cbv zeta.
  destruct (isOrderComplete _); [|done].
  cbn [order_id]. rewrite Hid. unfold updateOrderStatus.
  cbn; rewrite lookup_insert_eq; cbn; by rewrite insert_insert_eq.
Qed.

(** Beside the order they find, the handlers only publish
    [OrderReadyForShipping], which is not an event of the ledger. *)
Lemma handleOutOfStock_ledger (k orderId pid : string) (req av : Z) (s : State) :
  ledger_events k (published (handleOutOfStock orderId pid req av s)) =
    ledger_events k (published s).
Proof.
  unfold handleOutOfStock. destruct (orders s !! orderId) as [o|]; [|done]. cbv zeta.
  destruct (isOrderComplete _); [|done].
  match goal with |- context [updateOrderStatus ?a ?b ?c] =>
    destruct (updateOrderStatus_frame a b c) as (_ & _ & _ & -> & _) end.
  destruct (0 <? length _)%nat; [|done].
  cbn [published publishOrderReadyForShipping handleOrderReadyForShipping set_shipments
       record_event set_orders].
  by rewrite ledger_events_app, ledger_events_ready, app_nil_r.
Qed.

Lemma handleStockReserved_ledger (k orderId : string) (items : list OrderItem) (s : State) :
  ledger_events k (published (handleStockReserved orderId items s)) =
    ledger_events k (published s).
Proof.
  unfold handleStockReserved. destruct (orders s !! orderId) as [o|]; [|done]. cbv zeta.
  destruct (isOrderComplete _); [|done].
  match goal with |- context [updateOrderStatus ?a ?b ?c] =>
    destruct (updateOrderStatus_frame a b c) as (_ & _ & _ & -> & _) end.
  cbn [published publishOrderReadyForShipping handleOrderReadyForShipping set_shipments
       record_event set_orders].
  by rewrite ledger_events_app, ledger_events_ready, app_nil_r.
Qed.

(** ** Outcomes *)

Lemma granted_refused_length (outs : list (OrderItem * ReserveResult)) :
  (length (granted_lines outs) + length (unfulfillable_of outs) = length outs)%nat.
Proof.
  induction outs as [|[it r] outs IH]; [done|].
  unfold granted_lines, unfulfillable_of in *. cbn. destruct (success r); cbn; lia.
Qed.

Lemma saga_outOfStock_fields (pid : string) (req av t : Z) (o : Order) :
  order_id (saga_outOfStock pid req av t o) = order_id o
  ∧ order_items (saga_outOfStock pid req av t o) = order_items o
  ∧ unfulfillableItems (saga_outOfStock pid req av t o) =
      unfulfillableItems o ++ [mkOrderItem pid (js_sub req av)]
  ∧ fulfillableItems (saga_outOfStock pid req av t o) =
      (if 0 <? av then fulfillableItems o ++ [mkOrderItem pid av] else fulfillableItems o).
Proof. unfold saga_outOfStock. cbv zeta. by destruct (isOrderComplete _). Qed.

Lemma saga_stockReserved_fields (items : list OrderItem) (t : Z) (o : Order) :
  order_id (saga_stockReserved items t o) = order_id o
  ∧ order_items (saga_stockReserved items t o) = order_items o
  ∧ unfulfillableItems (saga_stockReserved items t o) = unfulfillableItems o
  ∧ fulfillableItems (saga_stockReserved items t o) = fulfillableItems o ++ items.
Proof. unfold saga_stockReserved. cbv zeta. by destruct (isOrderComplete _). Qed.

(** The status after a handler has run: either the handler found the order
    complete and made it terminal, or the status is what it was. *)
Lemma saga_outOfStock_status (pid : string) (req av t : Z) (o : Order) :
  let o' := saga_outOfStock pid req av t o in
  (isOrderComplete o' = true
   ∧ status o' = (if (0 <? length (fulfillableItems o'))%nat then partial else cancelled))
  ∨ (isOrderComplete o' = false ∧ status o' = status o).
Proof.
  cbv zeta. unfold saga_outOfStock. cbv zeta.
  match goal with |- context [if isOrderComplete ?x then _ else _] => set (o1 := x) end.
  destruct (isOrderComplete o1) eqn:E; [left|right]; (split; [exact E|done]).
Qed.

Lemma saga_stockReserved_status (items : list OrderItem) (t : Z) (o : Order) :
  let o' := saga_stockReserved items t o in
  (isOrderComplete o' = true
   ∧ status o' = (if (0 <? length (unfulfillableItems o'))%nat then partial else fulfilled))
  ∨ (isOrderComplete o' = false ∧ status o' = status o).
Proof.
  cbv zeta. unfold saga_stockReserved. cbv zeta.
  match goal with |- context [if isOrderComplete ?x then _ else _] => set (o1 := x) end.
  destruct (isOrderComplete o1) eqn:E; [left|right]; (split; [exact E|done]).
Qed.

Lemma outcomes_snoc (orderId : string) (outs : list (OrderItem * ReserveResult)) (item : OrderItem)
    (r : ReserveResult) :
  granted_lines (outs ++ [(item, r)]) =
    granted_lines outs ++ (if success r then [item] else [])
  ∧ refused_events orderId (outs ++ [(item, r)]) =
      refused_events orderId outs
        ++ (if success r then []
            else [OutOfStock orderId (productId item) (quantity item) (availableQuantity r)])
  ∧ unfulfillable_of (outs ++ [(item, r)]) =
      unfulfillable_of outs
        ++ (if success r then []
            else [mkOrderItem (productId item)
                    (js_sub (quantity item) (availableQuantity r))])
  ∧ split_of (outs ++ [(item, r)]) =
      split_of outs
        ++ (if success r then []
            else if 0 <? availableQuantity r
                 then [mkOrderItem (productId item) (availableQuantity r)] else [])
  ∧ (outs ++ [(item, r)]).*1 = outs.*1 ++ [item].
Proof.
  unfold granted_lines, refused_events, unfulfillable_of, split_of.
  rewrite !omap_app, fmap_app. cbn.
  destruct (success r); [done|]. by destruct (0 <? availableQuantity r).
Qed.

Lemma saga_outOfStock_terminal (pid : string) (req av t : Z) (o : Order) :
  status o ≠ pending →
  (is_terminal (status o) →
   (length (order_items o) ≤ length (fulfillableItems o) + length (unfulfillableItems o))%nat) →
  let o' := saga_outOfStock pid req av t o in
  status o' ≠ pending
  ∧ (is_terminal (status o') →
     (length (order_items o') ≤ length (fulfillableItems o') + length (unfulfillableItems o'))%nat).
Proof.
  intros Hnp Hterm. cbv zeta.
  destruct (saga_outOfStock_status pid req av t o) as [[Hc Hst]|[Hc Hst]];
    destruct (saga_outOfStock_fields pid req av t o) as (Hid & Hit & Hu & Hf).
  - split.
    + rewrite Hst. by destruct (0 <? length _)%nat.
    + intros _. unfold isOrderComplete in Hc. apply Nat.eqb_eq in Hc. lia.
  - rewrite Hst. split; [done|]. intros Ht. specialize (Hterm Ht).
    rewrite Hit, Hu, Hf, length_app. destruct (0 <? av); rewrite ?length_app; cbn; lia.
Qed.

Lemma saga_stockReserved_terminal (items : list OrderItem) (t : Z) (o : Order) :
  status o ≠ pending →
  (is_terminal (status o) →
   (length (order_items o) ≤ length (fulfillableItems o) + length (unfulfillableItems o))%nat) →
  let o' := saga_stockReserved items t o in
  status o' ≠ pending
  ∧ (is_terminal (status o') →
     (length (order_items o') ≤ length (fulfillableItems o') + length (unfulfillableItems o'))%nat).
Proof.
  intros Hnp Hterm. cbv zeta.
  destruct (saga_stockReserved_status items t o) as [[Hc Hst]|[Hc Hst]];
    destruct (saga_stockReserved_fields items t o) as (Hid & Hit & Hu & Hf).
  - split.
    + rewrite Hst. by destruct (0 <? length _)%nat.
    + intros _. unfold isOrderComplete in Hc. apply Nat.eqb_eq in Hc. lia.
  - rewrite Hst. split; [done|]. intros Ht. specialize (Hterm Ht).
    rewrite Hit, Hu, Hf, length_app. lia.
Qed.

Lemma order_step_refl (o : Order) : order_step o o.
Proof. unfold order_step. auto. Qed.

Lemma order_step_trans (o1 o2 o3 : Order) :
  order_step o1 o2 → order_step o2 o3 → order_step o1 o3.
Proof.
  intros (Hid1 & Hit1 & Hc1 & Hst1) (Hid2 & Hit2 & Hc2 & Hst2).
  split; [congruence|]. split; [congruence|]. split; [congruence|].
  destruct Hst1 as [Hst1|[Hp1 Ht1]], Hst2 as [Hst2|[Hp2 Ht2]].
  - left. congruence.
  - right. split; [congruence|done].
  - right. split; [done|congruence].
  - rewrite Hp2 in Ht1. done.
Qed.

Lemma not_terminal_processing (st : OrderStatus) :
  st ≠ pending → ¬ is_terminal st → st = processing.
Proof. by destruct st. Qed.

Lemma saga_outOfStock_step (pid : string) (req av t : Z) (o : Order) :
  status o ≠ pending →
  (is_terminal (status o) →
   (length (order_items o) ≤ length (fulfillableItems o) + length (unfulfillableItems o))%nat) →
  order_step o (saga_outOfStock pid req av t o).
Proof.
  intros Hnp Hterm.
  destruct (saga_outOfStock_fields pid req av t o) as (Hid & Hit & Hu & Hf).
  split; [done|]. split; [done|].
  split; [unfold saga_outOfStock; cbv zeta; by destruct (isOrderComplete _)|].
  destruct (saga_outOfStock_status pid req av t o) as [[Hc Hst]|[Hc Hst]]; [|by left].
  right. split.
  - apply not_terminal_processing; [done|]. intros Ht. specialize (Hterm Ht).
    unfold isOrderComplete in Hc. apply Nat.eqb_eq in Hc.
    rewrite Hit, Hu, Hf, length_app in Hc. cbn [length] in Hc.
    destruct (0 <? av); rewrite ?length_app in Hc; cbn [length] in Hc; lia.
  - rewrite Hst. by destruct (0 <? length _)%nat.
Qed.

Lemma saga_stockReserved_step (items : list OrderItem) (t : Z) (o : Order) :
  items ≠ [] →
  status o ≠ pending →
  (is_terminal (status o) →
   (length (order_items o) ≤ length (fulfillableItems o) + length (unfulfillableItems o))%nat) →
  order_step o (saga_stockReserved items t o).
Proof.
  intros Hitems Hnp Hterm.
  destruct (saga_stockReserved_fields items t o) as (Hid & Hit & Hu & Hf).
  split; [done|]. split; [done|].
  split; [unfold saga_stockReserved; cbv zeta; by destruct (isOrderComplete _)|].
  destruct (saga_stockReserved_status items t o) as [[Hc Hst]|[Hc Hst]]; [|by left].
  right. split.
  - apply not_terminal_processing; [done|]. intros Ht. specialize (Hterm Ht).
    unfold isOrderComplete in Hc. apply Nat.eqb_eq in Hc.
    rewrite Hit, Hu, Hf, length_app in Hc.
    destruct items; [done|]. cbn [length] in Hc. lia.
  - rewrite Hst. by destruct (0 <? length _)%nat.
Qed.

(** ** One loop iteration preserves the relation between order and outcomes *)

Section iteration.
Context (orderId : string) (evs : list Event) (o : Order) (outs : list (OrderItem * ReserveResult)).
Context (item : OrderItem) (rest res : list OrderItem) (t : Z).
Hypothesis Hinv : order_inv (Some (mkTask (item :: rest) res)) evs orderId o outs.

Lemma iteration_facts :
  order_id o = orderId
  ∧ order_items o = outs.*1 ++ item :: rest
  ∧ res = granted_lines outs
  ∧ evs = refused_events orderId outs
  ∧ unfulfillableItems o = unfulfillable_of outs
  ∧ fulfillableItems o = split_of outs
  ∧ status o ≠ pending
  ∧ (split_of outs = [] → status o = processing).
Proof.
  destruct Hinv as [Hid Hit Htask Hev Hu Hf Hnp Hterm Hset].
  destruct (Htask _ eq_refl) as [_ Hres]. cbn in *.
  rewrite app_nil_r in Hev, Hf. done.
Qed.

(** The line is granted and it is not the last one. *)
Lemma iteration_granted_more (r : ReserveResult) :
  success r = true → rest ≠ [] →
  order_inv (Some (mkTask rest (res ++ [mkOrderItem (productId item) (quantity item)])))
    evs orderId o (outs ++ [(item, r)]).
Proof.
  intros Hr Hrest.
  destruct iteration_facts as (Hid & Hit & Hres & Hev & Hu & Hf & Hnp & Hset).
  destruct (outcomes_snoc orderId outs item r) as (Hg & Hre & Hun & Hsp & Hfst).
  rewrite Hr in Hg, Hre, Hun, Hsp. rewrite app_nil_r in Hre, Hun, Hsp.
  split; cbn [from_option task_pending].
  - done.
  - rewrite Hfst, Hit, <- app_assoc. done.
  - intros ? [= <-]. cbn. split; [done|]. rewrite Hg, Hres. by destruct item.
  - rewrite Hre. destruct rest; [done|]. cbn. by rewrite app_nil_r.
  - by rewrite Hun.
  - by rewrite Hsp, app_nil_r.
  - done.
  - apply Hinv.
  - rewrite Hsp. done.
Qed.

(** The line is granted and it is the last one: [StockReserved] follows. *)
Lemma iteration_granted_last (r : ReserveResult) :
  success r = true → rest = [] →
  order_inv None
    (evs ++ [StockReserved orderId (res ++ [mkOrderItem (productId item) (quantity item)])])
    orderId
    (saga_stockReserved (res ++ [mkOrderItem (productId item) (quantity item)]) t o)
    (outs ++ [(item, r)]).
Proof.
  intros Hr Hrest.
  destruct iteration_facts as (Hid & Hit & Hres & Hev & Hu & Hf & Hnp & Hset).
  rewrite Hrest in Hit.
  destruct (outcomes_snoc orderId outs item r) as (Hg & Hre & Hun & Hsp & Hfst).
  rewrite Hr in Hg, Hre, Hun, Hsp. rewrite app_nil_r in Hre, Hun, Hsp.
  assert (mkOrderItem (productId item) (quantity item) = item) as -> by by destruct item.
  rewrite <- Hres in Hg.
  destruct (saga_stockReserved_fields (res ++ [item]) t o) as (Hid' & Hit' & Hu' & Hf').
  destruct (saga_stockReserved_terminal (res ++ [item]) t o Hnp (oi_terminal _ _ _ _ _ Hinv))
    as [Hnp' Hterm'].
  split; cbn [from_option].
  - congruence.
  - rewrite Hit', Hit, Hfst, app_nil_r. done.
  - done.
  - rewrite Hre, Hg, Hev. by destruct res.
  - congruence.
  - rewrite Hf', Hf, Hsp, Hg. done.
  - done.
  - done.
  - rewrite Hsp. intros Hnosplit.
    destruct (saga_stockReserved_status (res ++ [item]) t o) as [[Hc Hst]|[Hc Hst]].
    + rewrite Hst, Hu', Hu. unfold settled_status. rewrite Hg, Hun.
      destruct res; cbn; by destruct (unfulfillable_of outs).
    + exfalso. unfold isOrderComplete in Hc. apply Nat.eqb_neq in Hc. apply Hc.
      rewrite Hf', Hu', Hit', Hit, Hf, Hu, Hnosplit. cbn [app].
      pose proof (granted_refused_length outs) as Hlen.
      rewrite !length_app, length_fmap. cbn. rewrite Hres. lia.
Qed.

(** The line is refused and it is not the last one. *)
Lemma iteration_refused_more (r : ReserveResult) :
  success r = false → rest ≠ [] →
  order_inv (Some (mkTask rest res))
    (evs ++ [OutOfStock orderId (productId item) (quantity item) (availableQuantity r)])
    orderId
    (saga_outOfStock (productId item) (quantity item) (availableQuantity r) t o)
    (outs ++ [(item, r)]).
Proof.
  intros Hr Hrest.
  destruct iteration_facts as (Hid & Hit & Hres & Hev & Hu & Hf & Hnp & Hset).
  destruct (outcomes_snoc orderId outs item r) as (Hg & Hre & Hun & Hsp & Hfst).
  rewrite Hr in Hg, Hre, Hun, Hsp. rewrite app_nil_r in Hg.
  set (av := availableQuantity r) in *.
  destruct (saga_outOfStock_fields (productId item) (quantity item) av t o)
    as (Hid' & Hit' & Hu' & Hf').
  destruct (saga_outOfStock_terminal (productId item) (quantity item) av t o Hnp
              (oi_terminal _ _ _ _ _ Hinv)) as [Hnp' Hterm'].
  split; cbn [from_option task_pending].
  - congruence.
  - rewrite Hit', Hit, Hfst, <- app_assoc. done.
  - intros ? [= <-]. cbn. split; [done|]. congruence.
  - rewrite Hre, Hev. destruct rest; [done|]. cbn. by rewrite app_nil_r.
  - congruence.
  - rewrite Hf', Hf, Hsp. destruct (0 <? av); by rewrite ?app_nil_r.
  - done.
  - done.
  - rewrite Hsp. intros Hnosplit. apply app_eq_nil in Hnosplit as [Hnosplit Hav].
    destruct (saga_outOfStock_status (productId item) (quantity item) av t o)
      as [[Hc Hst]|[Hc Hst]]; [|rewrite Hst; auto].
    exfalso. unfold isOrderComplete in Hc. apply Nat.eqb_eq in Hc.
    rewrite Hf', Hu', Hit', Hit, Hf, Hu, Hnosplit in Hc.
    destruct (0 <? av); [done|].
    pose proof (granted_refused_length outs) as Hlen.
    rewrite !length_app, length_fmap in Hc. cbn in Hc.
    destruct rest; [done|]. cbn in Hc. lia.
Qed.

(** The line is refused and it is the last one: [StockReserved] follows when
    an earlier line was granted. *)
Lemma iteration_refused_last (r : ReserveResult) :
  success r = false → rest = [] →
  order_inv None
    (evs ++ [OutOfStock orderId (productId item) (quantity item) (availableQuantity r)]
         ++ (if (0 <? length res)%nat then [StockReserved orderId res] else []))
    orderId
    (let o1 := saga_outOfStock (productId item) (quantity item) (availableQuantity r) t o in
     if (0 <? length res)%nat then saga_stockReserved res t o1 else o1)
    (outs ++ [(item, r)]).
Proof.
  intros Hr Hrest. cbv zeta.
  destruct iteration_facts as (Hid & Hit & Hres & Hev & Hu & Hf & Hnp & Hset).
  rewrite Hrest in Hit.
  destruct (outcomes_snoc orderId outs item r) as (Hg & Hre & Hun & Hsp & Hfst).
  rewrite Hr in Hg, Hre, Hun, Hsp. rewrite app_nil_r in Hg.
  set (av := availableQuantity r) in *.
  set (o1 := saga_outOfStock (productId item) (quantity item) av t o).
  destruct (saga_outOfStock_fields (productId item) (quantity item) av t o)
    as (Hid1 & Hit1 & Hu1 & Hf1).
  destruct (saga_outOfStock_terminal (productId item) (quantity item) av t o Hnp
              (oi_terminal _ _ _ _ _ Hinv)) as [Hnp1 Hterm1].
  fold o1 in Hid1, Hit1, Hu1, Hf1, Hnp1, Hterm1.
  pose proof (granted_refused_length outs) as Hlen.
  assert (fulfillableItems o1 = split_of (outs ++ [(item, r)])) as Hf1'.
  { rewrite Hf1, Hf, Hsp. destruct (0 <? av); [done|]. by rewrite app_nil_r. }
  assert (split_of (outs ++ [(item, r)]) = [] →
          (length (fulfillableItems o1) + length (unfulfillableItems o1))%nat
          = (length (unfulfillable_of outs) + 1)%nat
          ∧ length (order_items o1) = (length outs + 1)%nat
          ∧ status o = processing) as Hcount.
  { intros Hnosplit. rewrite Hf1', Hnosplit, Hu1, Hu, Hit1, Hit.
    rewrite !length_app, length_fmap. cbn. split; [done|]. split; [done|].
    apply Hset. rewrite Hsp in Hnosplit. by apply app_eq_nil in Hnosplit as [? _]. }
  destruct res as [|g res'] eqn:Eres; cbn [length Nat.ltb Nat.leb].
  - (* nothing was granted: no [StockReserved] *)
    split; cbn [from_option].
    + congruence.
    + rewrite Hit1, Hit, Hfst, app_nil_r. done.
    + done.
    + rewrite Hre, Hg, Hev, <- Hres. cbn. by rewrite !app_nil_r.
    + congruence.
    + rewrite Hf1', Hg, <- Hres. by rewrite app_nil_r.
    + done.
    + done.
    + intros Hnosplit. destruct (Hcount Hnosplit) as (Hsum & Hn & Hproc).
      unfold settled_status. rewrite Hg, <- Hres, Hun.
      destruct (saga_outOfStock_status (productId item) (quantity item) av t o)
        as [[Hc Hst]|[Hc Hst]]; fold o1 in Hc, Hst.
      * rewrite Hst, Hf1', Hnosplit. cbn. by destruct (unfulfillable_of outs).
      * exfalso. unfold isOrderComplete in Hc. apply Nat.eqb_neq in Hc. apply Hc.
        rewrite Hsum, Hn. rewrite <- Hres in Hlen. cbn in Hlen. lia.
  - (* something was granted: [StockReserved] is published *)
    destruct (saga_stockReserved_fields (g :: res') t o1) as (Hid2 & Hit2 & Hu2 & Hf2).
    destruct (saga_stockReserved_terminal (g :: res') t o1 Hnp1 Hterm1) as [Hnp2 Hterm2].
    split; cbn [from_option].
    + congruence.
    + rewrite Hit2, Hit1, Hit, Hfst, app_nil_r. done.
    + done.
    + rewrite Hre, Hg, Hev, <- Hres, <- app_assoc. done.
    + congruence.
    + rewrite Hf2, Hf1', Hg, <- Hres. done.
    + done.
    + done.
    + intros Hnosplit. destruct (Hcount Hnosplit) as (Hsum & Hn & Hproc).
      unfold settled_status. rewrite Hg, <- Hres, Hun.
      rewrite <- Hres in Hlen. cbn [length] in Hlen.
      assert (status o1 = processing) as Hst1.
      { destruct (saga_outOfStock_status (productId item) (quantity item) av t o)
          as [[Hc Hst]|[Hc Hst]]; fold o1 in Hc, Hst; [|congruence].
        exfalso. unfold isOrderComplete in Hc. apply Nat.eqb_eq in Hc.
        rewrite Hsum, Hn in Hc. lia. }
      destruct (saga_stockReserved_status (g :: res') t o1) as [[Hc Hst]|[Hc Hst]].
      * rewrite Hst, Hu2, Hu1, length_app. cbn [length].
        replace (0 <? length (unfulfillableItems o) + 1)%nat with true
          by (symmetry; apply Nat.ltb_lt; lia).
        by destruct (unfulfillable_of outs).
      * exfalso. unfold isOrderComplete in Hc. apply Nat.eqb_neq in Hc. apply Hc.
        rewrite Hf2, Hu2, Hit2, length_app, Hn.
        rewrite Hf1', Hnosplit in Hsum |- *. cbn [length] in Hsum |- *. lia.
Qed.
End iteration.

(** ** The invariant of the process *)

Lemma tryReserveStock_frame (pid : string) (q : Z) (s s1 : State) (r : ReserveResult) :
  tryReserveStock pid q s = Some (r, s1) →
  orders s1 = orders s
  ∧ shipments s1 = shipments s
  ∧ published s1 = published s
  ∧ now s1 = now s
  ∧ tasks s1 = tasks s
  ∧ lockMap s1 = <[pid := false]> (<[pid := true]> (lockMap s)).
Proof.
  unfold tryReserveStock.
  destruct (lockMap s !! pid) as [[]|]; [done| |];
    cbn [inventory set_lockMap];
    (destruct (inventory s !! pid) as [it|]; [destruct (q <=? _)|]);
    by intros [= <- <-].
Qed.

Lemma tryReserveStock_returns (pid : string) (q : Z) (s : State) :
  lockMap s !! pid ≠ Some true → ∃ r s1, tryReserveStock pid q s = Some (r, s1).
Proof.
  intros Hfree. rewrite (tryReserveStock_free _ _ _ Hfree).
  destruct (inventory s !! pid) as [it|]; [destruct (q <=? _)|]; eauto.
Qed.

Lemma publishOutOfStock_spec (orderId pid : string) (req av : Z) (s : State) (o : Order) :
  orders s !! orderId = Some o →
  order_id o = orderId →
  orders (publishOutOfStock orderId pid req av s) =
    <[orderId := saga_outOfStock pid req av (now s) o]> (orders s)
  ∧ tasks (publishOutOfStock orderId pid req av s) = tasks s
  ∧ lockMap (publishOutOfStock orderId pid req av s) = lockMap s
  ∧ now (publishOutOfStock orderId pid req av s) = now s
  ∧ ∀ k, ledger_events k (published (publishOutOfStock orderId pid req av s)) =
         ledger_events k (published s)
           ++ (if decide (orderId = k) then [OutOfStock orderId pid req av] else []).
Proof.
  intros Hord Hid. unfold publishOutOfStock.
  set (s0 := record_event (OutOfStock orderId pid req av) s).
  destruct (handleOutOfStock_frame orderId pid req av s0) as (_ & Hl & Hn & Ht).
  split; [by rewrite (handleOutOfStock_orders orderId pid req av s0 o Hord Hid)|].
  split; [done|]. split; [done|]. split; [done|].
  intros k. rewrite handleOutOfStock_ledger. subst s0. cbn [published record_event].
  by rewrite ledger_events_app, ledger_events_outOfStock.
Qed.

Lemma publishStockReserved_spec (orderId : string) (items : list OrderItem)
    (s : State) (o : Order) :
  orders s !! orderId = Some o →
  order_id o = orderId →
  orders (publishStockReserved orderId items s) =
    <[orderId := saga_stockReserved items (now s) o]> (orders s)
  ∧ tasks (publishStockReserved orderId items s) = tasks s
  ∧ lockMap (publishStockReserved orderId items s) = lockMap s
  ∧ now (publishStockReserved orderId items s) = now s
  ∧ ∀ k, ledger_events k (published (publishStockReserved orderId items s)) =
         ledger_events k (published s)
           ++ (if decide (orderId = k) then [StockReserved orderId items] else []).
Proof.
  intros Hord Hid. unfold publishStockReserved.
  set (s0 := record_event (StockReserved orderId items) s).
  destruct (handleStockReserved_frame orderId items s0) as (_ & Hl & Hn & Ht).
  split; [by rewrite (handleStockReserved_orders orderId items s0 o Hord Hid)|].
  split; [done|]. split; [done|]. split; [done|].
  intros k. rewrite handleStockReserved_ledger. subst s0. cbn [published record_event].
  by rewrite ledger_events_app, ledger_events_stockReserved.
Qed.

(** A turn that only touches the order under [orderId], its task and the
    ledger's events about it preserves the invariant as soon as it preserves
    the relation for that order. *)
Lemma saga_inv_update (s s' : State) (orderId : string) (o' : Order)
    (outs' : list (OrderItem * ReserveResult)) :
  saga_inv s →
  (∀ p, lockMap s' !! p ≠ Some true) →
  orders s' = <[orderId := o']> (orders s) →
  (∀ k, k ≠ orderId → tasks s' !! k = tasks s !! k) →
  (∀ k, k ≠ orderId →
        ledger_events k (published s') = ledger_events k (published s)) →
  order_inv (tasks s' !! orderId) (ledger_events orderId (published s')) orderId o' outs' →
  saga_inv s'.
Proof.
  intros [Hlock Hunk Hords] Hlock' Horders Htasks Hevents Hnew.
  split; [done| |].
  - intros k. rewrite Horders. intros [Hne Hk]%lookup_insert_None.
    rewrite Htasks, Hevents by done. by apply Hunk.
  - intros k ok. rewrite Horders.
    intros [[<- <-]|[Hne Hk]]%lookup_insert_Some; [by exists outs'|].
    rewrite Htasks, Hevents by done. by apply Hords.
Qed.

Lemma saga_inv_update_step (s s' : State) (orderId : string) (o o' : Order)
    (outs' : list (OrderItem * ReserveResult)) :
  saga_inv s →
  orders s !! orderId = Some o →
  order_step o o' →
  (∀ p, lockMap s' !! p ≠ Some true) →
  orders s' = <[orderId := o']> (orders s) →
  (∀ k, k ≠ orderId → tasks s' !! k = tasks s !! k) →
  (∀ k, k ≠ orderId →
        ledger_events k (published s') = ledger_events k (published s)) →
  order_inv (tasks s' !! orderId) (ledger_events orderId (published s')) orderId o' outs' →
  saga_inv s'
  ∧ ∃ o o', orders s !! orderId = Some o
            ∧ orders s' = <[orderId := o']> (orders s)
            ∧ order_step o o'.
Proof.
  intros Hinv Ho Hstep Hlock' Horders Htasks Hevents Hnew.
  split; [by apply (saga_inv_update s s' orderId o' outs')|].
  by exists o, o'.
Qed.

Lemma lock_released (pid : string) (m : gmap string bool) :
  (∀ p, m !! p ≠ Some true) →
  ∀ p, <[pid := false]> (<[pid := true]> m) !! p ≠ Some true.
Proof.
  intros Hm p. destruct (decide (pid = p)) as [<-|Hne].
  - by rewrite lookup_insert_eq.
  - by rewrite !lookup_insert_ne.
Qed.

(** One loop iteration, seen from the order it works for: the ledger answers
    for the first pending line, and the relation between the order, its
    invocation and the ledger's events holds again with that answer added to
    the outcomes.  Nothing else changes but the inventory. *)
Lemma resume_outs (orderId : string) (item : OrderItem) (rest res : list OrderItem)
    (s : State) (o : Order) (outs : list (OrderItem * ReserveResult)) :
  saga_inv s →
  orders s !! orderId = Some o →
  order_inv (Some (mkTask (item :: rest) res)) (ledger_events orderId (published s))
    orderId o outs →
  ∃ r s1 o',
    tryReserveStock (productId item) (quantity item) s = Some (r, s1)
    ∧ order_step o o'
    ∧ (∀ p, lockMap (handleOrderPlaced_resume orderId (mkTask (item :: rest) res) s) !! p
            ≠ Some true)
    ∧ orders (handleOrderPlaced_resume orderId (mkTask (item :: rest) res) s)
        = <[orderId := o']> (orders s)
    ∧ (∀ k, k ≠ orderId →
            tasks (handleOrderPlaced_resume orderId (mkTask (item :: rest) res) s) !! k
            = tasks s !! k)
    ∧ (∀ k, k ≠ orderId →
            ledger_events k
              (published (handleOrderPlaced_resume orderId (mkTask (item :: rest) res) s))
            = ledger_events k (published s))
    ∧ order_inv
        (tasks (handleOrderPlaced_resume orderId (mkTask (item :: rest) res) s) !! orderId)
        (ledger_events orderId
           (published (handleOrderPlaced_resume orderId (mkTask (item :: rest) res) s)))
        orderId o' (outs ++ [(item, r)]).
Proof.
  intros Hinv Ho Hoi.
  destruct (oi_task _ _ _ _ _ Hoi _ eq_refl) as [Hpend Hres]. cbn in Hres.
  unfold handleOrderPlaced_resume. cbn [task_pending task_reservations].
  destruct (tryReserveStock_returns (productId item) (quantity item) s
              (si_locks s Hinv _)) as (r & s1 & Htry).
  rewrite Htry.
  destruct (tryReserveStock_frame _ _ _ _ _ Htry) as (Ho1 & _ & Hp1 & Hn1 & Ht1 & Hl1).
  assert (∀ p, lockMap s1 !! p ≠ Some true) as Hlock1.
  { rewrite Hl1. apply lock_released, Hinv. }
  assert (orders s1 !! orderId = Some o) as Ho1' by by rewrite Ho1.
  pose proof (oi_id _ _ _ _ _ Hoi) as Hid.
  pose proof (oi_not_pending _ _ _ _ _ Hoi) as Hnp.
  pose proof (oi_terminal _ _ _ _ _ Hoi) as Hterm.
  destruct (success r) eqn:Hr.
  - (* the line is granted *)
    destruct rest as [|item' rest'].
    + unfold handleOrderPlaced_finish.
      replace (0 <? length (res ++ [mkOrderItem (productId item) (quantity item)]))%nat
        with true by (symmetry; apply Nat.ltb_lt; rewrite length_app; cbn [length]; lia).
      destruct (publishStockReserved_spec orderId
                  (res ++ [mkOrderItem (productId item) (quantity item)]) s1 o Ho1' Hid)
        as (HO & HT & HL & HN & HE).
      exists r, s1, (saga_stockReserved (res ++ [mkOrderItem (productId item) (quantity item)])
                  (now s1) o); (split; [done|]); split_and!;
        cbn [lockMap set_tasks orders tasks published].
      * apply saga_stockReserved_step; [by destruct res|done|done].
      * by rewrite HL.
      * by rewrite HO, Ho1.
      * intros k Hk. rewrite lookup_delete_ne by done. by rewrite HT, Ht1.
      * intros k Hk. rewrite HE, Hp1, decide_False by done. by rewrite app_nil_r.
      * rewrite lookup_delete_eq, HE, Hp1, decide_True by done.
        by apply (iteration_granted_last orderId _ o outs item [] res (now s1) Hoi r).
    + exists r, s1, o; (split; [done|]); split_and!;
        cbn [lockMap set_tasks orders tasks published].
      * apply order_step_refl.
      * done.
      * by rewrite Ho1, insert_id.
      * intros k Hk. rewrite lookup_insert_ne by done. by rewrite Ht1.
      * intros k Hk. by rewrite Hp1.
      * rewrite lookup_insert_eq, Hp1.
        by apply (iteration_granted_more orderId _ o outs item (item' :: rest') res Hoi r).
  - (* the line is refused *)
    destruct (publishOutOfStock_spec orderId (productId item) (quantity item)
                (availableQuantity r) s1 o Ho1' Hid) as (HO & HT & HL & HN & HE).
    set (s2 := publishOutOfStock orderId (productId item) (quantity item)
                 (availableQuantity r) s1) in *.
    set (o1 := saga_outOfStock (productId item) (quantity item) (availableQuantity r)
                 (now s1) o) in *.
    assert (order_step o o1) as Hstep1 by by apply saga_outOfStock_step.
    destruct rest as [|item' rest'].
    + pose proof (iteration_refused_last orderId _ o outs item [] res (now s1) Hoi r Hr eq_refl)
        as Hnew.
      cbv zeta in Hnew. fold o1 in Hnew.
      unfold handleOrderPlaced_finish.
      destruct (0 <? length res)%nat eqn:Hlen.
      * assert (orders s2 !! orderId = Some o1) as Ho2 by by rewrite HO, lookup_insert_eq.
        assert (order_id o1 = orderId) as Hid1.
        { unfold o1. by destruct (saga_outOfStock_fields (productId item) (quantity item)
                                    (availableQuantity r) (now s1) o) as (-> & _). }
        destruct (publishStockReserved_spec orderId res s2 o1 Ho2 Hid1)
          as (HO' & HT' & HL' & HN' & HE').
        exists r, s1, (saga_stockReserved res (now s1) o1); (split; [done|]); split_and!;
          cbn [lockMap set_tasks orders tasks published].
        -- apply (order_step_trans o o1); [done|].
           destruct (saga_outOfStock_terminal (productId item) (quantity item)
                       (availableQuantity r) (now s1) o Hnp Hterm) as [Hnp1 Hterm1].
           apply saga_stockReserved_step; [|done|done].
           intros ->. done.
        -- by rewrite HL', HL.
        -- by rewrite HO', HO, Ho1, insert_insert_eq, HN.
        -- intros k Hk. rewrite lookup_delete_ne by done. by rewrite HT', HT, Ht1.
        -- intros k Hk. rewrite HE', HE, Hp1, !decide_False by done. by rewrite !app_nil_r.
        -- rewrite lookup_delete_eq, HE', HE, Hp1, !decide_True by done.
           by rewrite <- app_assoc.
      * exists r, s1, o1; (split; [done|]); split_and!;
          cbn [lockMap set_tasks orders tasks published].
        -- done.
        -- by rewrite HL.
        -- by rewrite HO, Ho1.
        -- intros k Hk. rewrite lookup_delete_ne by done. by rewrite HT, Ht1.
        -- intros k Hk. rewrite HE, Hp1, !decide_False by done. by rewrite !app_nil_r.
        -- rewrite lookup_delete_eq, HE, Hp1, !decide_True by done.
           by rewrite app_nil_r in Hnew.
    + exists r, s1, o1; (split; [done|]); split_and!;
        cbn [lockMap set_tasks orders tasks published].
      * done.
      * by rewrite HL.
      * by rewrite HO, Ho1.
      * intros k Hk. rewrite lookup_insert_ne by done. by rewrite HT, Ht1.
      * intros k Hk. rewrite HE, Hp1, !decide_False by done. by rewrite !app_nil_r.
      * rewrite lookup_insert_eq, HE, Hp1, !decide_True by done.
        by apply (iteration_refused_more orderId _ o outs item (item' :: rest') res
                    (now s1) Hoi r).
Qed.

Lemma resume_spec (orderId : string) (t : Task) (s : State) :
  saga_inv s → tasks s !! orderId = Some t →
  saga_inv (handleOrderPlaced_resume orderId t s)
  ∧ ∃ o o', orders s !! orderId = Some o
            ∧ orders (handleOrderPlaced_resume orderId t s) = <[orderId := o']> (orders s)
            ∧ order_step o o'.
Proof.
  intros Hinv Htask.
  assert (∃ o, orders s !! orderId = Some o) as [o Ho].
  { destruct (orders s !! orderId) eqn:E; [eauto|].
    destruct (si_unknown s Hinv orderId E) as [Hn _]. congruence. }
  destruct (si_orders s Hinv orderId o Ho) as [outs Hoi].
  rewrite Htask in Hoi.
  destruct (oi_task _ _ _ _ _ Hoi t eq_refl) as [Hpend _].
  destruct t as [[|item rest] res]; [done|].
  destruct (resume_outs orderId item rest res s o outs Hinv Ho Hoi)
    as (r & s1 & o' & _ & Hstep & HL & HO & HT & HE & Hnew).
  by apply (saga_inv_update_step s _ orderId o o' (outs ++ [(item, r)]) Hinv Ho).
Qed.

Lemma createOrder_frame (id : string) (items : list OrderItem) (s : State) :
  lockMap (createOrder id items s) = lockMap s
  ∧ inventory (createOrder id items s) = inventory s
  ∧ published (createOrder id items s) = published s ++ [OrderPlaced id items]
  ∧ tasks (createOrder id items s) =
      match items with
      | [] => tasks s
      | _ :: _ => <[id := mkTask items []]> (tasks s)
      end.
Proof.
  unfold createOrder. cbn [order_id order_items].
  match goal with |- context [updateOrderStatus ?a ?b ?c] =>
    destruct (updateOrderStatus_frame a b c) as (-> & -> & _ & -> & _ & ->) end.
  unfold publishOrderPlaced, handleOrderPlaced. by destruct items.
Qed.

Lemma createOrder_inv (id : string) (items : list OrderItem) (s : State) :
  orders s !! id = None → saga_inv s → saga_inv (createOrder id items s).
Proof.
  intros Hfresh Hinv.
  destruct (createOrder_frame id items s) as (HL & _ & HP & HT).
  destruct (si_unknown s Hinv id Hfresh) as [Hnotask Hnoev].
  apply (saga_inv_update s _ id (mkOrder id items processing [] [] (now s) (now s)) [] Hinv).
  - rewrite HL. apply Hinv.
  - apply createOrder_lookup.
  - intros k Hk. rewrite HT. destruct items; [done|]. by rewrite lookup_insert_ne.
  - intros k Hk. by rewrite HP, ledger_events_app, ledger_events_placed, app_nil_r.
  - rewrite HP, ledger_events_app, ledger_events_placed, app_nil_r, Hnoev, HT.
    destruct items as [|item items'].
    + rewrite Hnotask. by split.
    + rewrite lookup_insert_eq. split; try done. by intros ? [= <-].
Qed.

Lemma saga_inv_frame (s s' : State) :
  lockMap s' = lockMap s → orders s' = orders s → tasks s' = tasks s →
  published s' = published s → saga_inv s → saga_inv s'.
Proof.
  intros HL HO HT HP [Hlock Hunk Hords].
  split.
  - by rewrite HL.
  - intros k. rewrite HO, HT, HP. apply Hunk.
  - intros k o. rewrite HO, HT, HP. apply Hords.
Qed.

Lemma initial_inv : saga_inv initial.
Proof. split; done. Qed.

Lemma step_inv (s s' : State) : step s s' → saga_inv s → saga_inv s'.
Proof.
  intros Hstep Hinv. destruct Hstep as [id items s Hfresh|orderId s|pid q s|pid q s|t s].
  - by apply createOrder_inv.
  - cbn [run_action]. destruct (tasks s !! orderId) as [t|] eqn:Ht; [|done].
    by apply resume_spec.
  - apply (saga_inv_frame s); [..|done]; unfold addInventory;
      by destruct (inventory s !! pid).
  - apply (saga_inv_frame s); [..|done]; unfold releaseStock;
      destruct (inventory s !! pid); try done; by destruct (q <=? _).
  - by apply (saga_inv_frame s).
Qed.

(** A turn of the event loop changes the inventory as one call on the ledger
    does, or as [addInventory] does, or not at all: the reservations of
    concurrent orders reach the ledger as a list of calls. *)
Lemma step_inventory_call (s s' : State) :
  step s s' →
  inventory s' = inventory s
  ∨ (∃ c, inventory s' = inventory (stock_call c s))
  ∨ (∃ pid q, inventory s' = inventory (addInventory pid q s)).
Proof.
  intros [id items s0 Hfresh|orderId s0|pid q s0|pid q s0|t s0].
  - left. by destruct (createOrder_frame id items s0) as (_ & -> & _).
  - cbn [run_action]. destruct (tasks s0 !! orderId) as [t|]; [|by left].
    unfold handleOrderPlaced_resume.
    destruct (task_pending t) as [|item rest]; [by left|].
    destruct (tryReserveStock (productId item) (quantity item) s0) as [[r s1]|] eqn:Htry;
      [|by left].
    right. left. exists (Reserve (productId item) (quantity item)).
    cbn [stock_call]. rewrite Htry.
    assert (∀ res, inventory (handleOrderPlaced_finish orderId res
                     (if success r then s1
                      else publishOutOfStock orderId (productId item) (quantity item)
                             (availableQuantity r) s1)) = inventory s1) as Hfin.
    { intros res. unfold handleOrderPlaced_finish, publishStockReserved, publishOutOfStock.
      destruct (0 <? length res)%nat.
      - match goal with |- context [handleStockReserved ?a ?b ?c] =>
          destruct (handleStockReserved_frame a b c) as (-> & _) end.
        cbn. destruct (success r); [done|].
        match goal with |- context [handleOutOfStock ?a ?b ?c ?d ?e] =>
          by destruct (handleOutOfStock_frame a b c d e) as (-> & _) end.
      - destruct (success r); [done|].
        match goal with |- context [handleOutOfStock ?a ?b ?c ?d ?e] =>
          by destruct (handleOutOfStock_frame a b c d e) as (-> & _) end. }
    destruct rest as [|item' rest']; cbn [inventory set_tasks].
    + apply Hfin.
    + apply (Hfin []).
  - right. right. by exists pid, q.
  - right. left. by exists (Release pid q).
  - by left.
Qed.

Lemma resume_pending (orderId : string) (t : Task) (s : State)
    (item : OrderItem) (rest : list OrderItem) :
  lockMap s !! productId item ≠ Some true →
  task_pending t = item :: rest →
  pending_of orderId (handleOrderPlaced_resume orderId t s) = rest.
Proof.
  intros Hfree Hpend. unfold handleOrderPlaced_resume, pending_of. rewrite Hpend.
  destruct (tryReserveStock_returns (productId item) (quantity item) s Hfree)
    as (r & s1 & ->).
  destruct rest as [|item' rest']; cbn [tasks set_tasks].
  - by rewrite lookup_delete_eq.
  - by rewrite lookup_insert_eq.
Qed.

Lemma pending_of_task (orderId : string) (s : State) :
  pending_of orderId s = from_option task_pending [] (tasks s !! orderId).
Proof. unfold pending_of. by destruct (tasks s !! orderId). Qed.

(** ** A terminal order has at least as many outcome records as lines *)

Lemma handleOutOfStock_overfull (orderId pid : string) (req av : Z) (s : State) (o : Order) :
  orders s !! orderId = Some o →
  (length (order_items o) ≤ length (fulfillableItems o) + length (unfulfillableItems o))%nat →
  handleOutOfStock orderId pid req av s =
    set_orders
      <[orderId := mkOrder (order_id o) (order_items o) (status o)
                     (if 0 <? av then fulfillableItems o ++ [mkOrderItem pid av]
                      else fulfillableItems o)
                     (unfulfillableItems o ++ [mkOrderItem pid (js_sub req av)])
                     (createdAt o) (now s)]> s.
Proof.
  intros Ho Hfull. unfold handleOutOfStock. rewrite Ho. cbv zeta.
  match goal with |- context [if isOrderComplete ?x then _ else _] =>
    replace (isOrderComplete x) with false; [done|] end.
  symmetry. apply Nat.eqb_neq. cbn [fulfillableItems unfulfillableItems order_items].
  rewrite length_app. cbn [length].
  destruct (0 <? av); rewrite ?length_app; cbn [length]; lia.
Qed.

Lemma handleStockReserved_overfull (orderId : string) (items : list OrderItem)
    (s : State) (o : Order) :
  orders s !! orderId = Some o →
  items ≠ [] →
  (length (order_items o) ≤ length (fulfillableItems o) + length (unfulfillableItems o))%nat →
  handleStockReserved orderId items s =
    set_orders
      <[orderId := mkOrder (order_id o) (order_items o) (status o)
                     (fulfillableItems o ++ items) (unfulfillableItems o)
                     (createdAt o) (now s)]> s.
Proof.
  intros Ho Hitems Hfull. unfold handleStockReserved. rewrite Ho. cbv zeta.
  match goal with |- context [if isOrderComplete ?x then _ else _] =>
    replace (isOrderComplete x) with false; [done|] end.
  symmetry. apply Nat.eqb_neq. cbn [fulfillableItems unfulfillableItems order_items].
  rewrite length_app. destruct items; [done|]. cbn [length]. lia.
Qed.

(** ** Outcomes without a split line *)

Lemma outcomes_cons (orderId : string) (outs : list (OrderItem * ReserveResult))
    (item : OrderItem) (r : ReserveResult) :
  refused_events orderId ((item, r) :: outs) =
    (if success r then []
     else [OutOfStock orderId (productId item) (quantity item) (availableQuantity r)])
      ++ refused_events orderId outs
  ∧ split_of ((item, r) :: outs) =
      (if success r then []
       else if 0 <? availableQuantity r
            then [mkOrderItem (productId item) (availableQuantity r)] else [])
        ++ split_of outs.
Proof.
  unfold refused_events, split_of. cbn.
  destruct (success r); [done|]. by destruct (0 <? availableQuantity r).
Qed.

Lemma no_split_outcomes (orderId : string) (l : list Event)
    (outs : list (OrderItem * ReserveResult)) :
  forallb (no_split_event orderId) l = true →
  (∀ e, e ∈ refused_events orderId outs → e ∈ l) →
  split_of outs = [].
Proof.
  intros Hall. rewrite forallb_forall in Hall.
  induction outs as [|[it r] outs IH]; [done|].
  destruct (outcomes_cons orderId outs it r) as [-> ->]. intros Hin.
  destruct (success r).
  - cbn [app] in *. by apply IH.
  - assert ((0 <? availableQuantity r) = false) as ->.
    { assert (no_split_event orderId
                (OutOfStock orderId (productId it) (quantity it) (availableQuantity r)) = true)
        as Hev.
      { apply Hall, list_elem_of_In, Hin. cbn. left. }
      cbn in Hev. rewrite bool_decide_true in Hev by done. cbn in Hev.
      apply Z.leb_le in Hev. apply Z.ltb_ge. done. }
    cbn [app]. apply IH. intros e He. apply Hin. cbn. by right.
Qed.

(** ** Scenario B (C3) *)

(** C3. Scenario B on the code: stock 5 of PROD-2 and 15 of PROD-3, one order
    for 7 of PROD-2 and 3 of PROD-3.  The saga books 5 of PROD-2 as
    fulfillable and 2 of PROD-2 as unfulfillable, later 3 of PROD-3 as
    fulfillable, and the status ends [partial]; but the order is found
    complete already when the refusal of the first line is handled (two
    outcome records for two requested lines), so [OrderReadyForShipping] is
    published then, with the single line 5 of PROD-2, and never again: the
    shipping service holds one shipment line, not two. *)
Theorem scenarioB_one_shipment_line :
  getOrder "order-B" scenarioB_final =
    Some (mkOrder "order-B" scenarioB_items partial
            [mkOrderItem "PROD-2" 5; mkOrderItem "PROD-3" 3]
            [mkOrderItem "PROD-2" 2] 0 0)
  ∧ getShipments "order-B" scenarioB_final =
      Some [mkShipmentItem "order-B" "PROD-2" 5 ship_pending 0]
  ∧ published scenarioB_final =
      [OrderPlaced "order-B" scenarioB_items;
       OutOfStock "order-B" "PROD-2" 7 5;
       OrderReadyForShipping "order-B" [mkOrderItem "PROD-2" 5];
       StockReserved "order-B" [mkOrderItem "PROD-3" 3]]
  ∧ getInventory "PROD-2" scenarioB_final = Some (mkInventoryItem "PROD-2" 5 0)
  ∧ getInventory "PROD-3" scenarioB_final = Some (mkInventoryItem "PROD-3" 15 3)
  ∧ tasks scenarioB_final !! "order-B" = None.
Proof. repeat split; vm_compute; reflexivity. Qed.

(** * Further properties of the services *)

(** ** Inventory: stocking, reserving and releasing *)

(** X1. Two successive [addInventory] calls for a product amount to one call
    with the sum of the two quantities, whether the product had a record
    before or not, as long as the numbers involved (the total of the product
    before, after the first and after the second call, the two quantities
    and their sum) are safe integers: the first call on an unknown product
    creates the record with nothing reserved, later calls add to its total
    and leave the reserved amount as it is. *)
Theorem addInventory_accumulates (pid : string) (q1 q2 : Z) (s : State) :
  Forall safe_integer
    [from_option inv_quantity 0 (getInventory pid s); q1; q2; q1 + q2;
     from_option inv_quantity 0 (getInventory pid s) + q1;
     from_option inv_quantity 0 (getInventory pid s) + q1 + q2] →
  addInventory pid q2 (addInventory pid q1 s) = addInventory pid (q1 + q2) s
  ∧ ∃ item, getInventory pid (addInventory pid q2 (addInventory pid q1 s)) = Some item
            ∧ inv_quantity item =
                from_option inv_quantity 0 (getInventory pid s) + q1 + q2
            ∧ inv_reserved item = from_option inv_reserved 0 (getInventory pid s).
Proof.
  unfold addInventory, getInventory.
  destruct (inventory s !! pid) as [item|] eqn:Hitem; cbn [from_option];
    intros Hsafe; repeat (apply Forall_cons in Hsafe as [? Hsafe]);
    cbn; rewrite lookup_insert_eq; cbn.
  - rewrite (js_add_safe (inv_quantity item) q1) by done.
    rewrite (js_add_safe (inv_quantity item + q1) q2) by done.
    rewrite (js_add_safe (inv_quantity item) (q1 + q2)) by by rewrite ?Z.add_assoc.
    split; [|rewrite lookup_insert_eq; eauto].
    unfold set_inventory. cbn. rewrite insert_insert_eq. by rewrite Z.add_assoc.
  - rewrite (js_add_safe q1 q2) by done.
    split; [|rewrite lookup_insert_eq; eauto].
    unfold set_inventory. cbn. by rewrite insert_insert_eq.
Qed.

Lemma addInventory_accumulates_witness :
  addInventory "PROD-1" 4 (addInventory "PROD-1" 3 initial) = addInventory "PROD-1" (3 + 4) initial
  ∧ ∃ item, getInventory "PROD-1" (addInventory "PROD-1" 4 (addInventory "PROD-1" 3 initial))
              = Some item
            ∧ inv_quantity item =
                from_option inv_quantity 0 (getInventory "PROD-1" initial) + 3 + 4
            ∧ inv_reserved item = from_option inv_reserved 0 (getInventory "PROD-1" initial).
Proof.
  apply (addInventory_accumulates "PROD-1" 3 4 initial).
  repeat constructor; vm_compute; discriminate.
Defined.

(** X2. Releasing what a successful reservation has just reserved gives the
    inventory back as it was, provided the reserved amount of the product was
    not negative before (otherwise [releaseStock] refuses) and it, the
    quantity and the reserved amount after the reservation are safe
    integers. *)
Theorem reserve_release_round_trip (pid : string) (q : Z) (s s1 : State)
    (item : InventoryItem) (r : ReserveResult) :
  inventory s !! pid = Some item →
  0 ≤ inv_reserved item →
  safe_integer (inv_reserved item) →
  safe_integer q →
  safe_integer (inv_reserved item + q) →
  tryReserveStock pid q s = Some (r, s1) →
  success r = true →
  inventory (releaseStock pid q s1) = inventory s.
Proof.
  intros Hitem Hres Hsafe Hq Hsafe' Htry Hr. unfold tryReserveStock in Htry.
  assert (s1 = set_lockMap <[pid := false]>
                 (set_inventory
                    <[pid := mkInventoryItem (inv_productId item) (inv_quantity item)
                                             (js_add (inv_reserved item) q)]>
                    (set_lockMap <[pid := true]> s))) as ->.
  { destruct (lockMap s !! pid) as [[]|]; [done| |];
      cbn [inventory set_lockMap] in Htry; rewrite Hitem in Htry;
      (destruct (q <=? _); [by injection Htry as _ <-|injection Htry as <- _; done]). }
  unfold releaseStock. cbn [inventory set_lockMap set_inventory].
  rewrite lookup_insert_eq. cbn [inv_reserved inv_productId inv_quantity].
  rewrite js_add_safe by done.
  destruct (Z.leb_spec q (inv_reserved item + q)); [|lia].
  cbn. rewrite insert_insert_eq.
  apply insert_id. rewrite Hitem. f_equal. destruct item. cbn in *. f_equal.
  rewrite js_sub_safe; [lia|done|done|].
  by replace (inv_reserved0 + q - q) with inv_reserved0 by lia.
Qed.

Lemma reserve_release_round_trip_witness :
  inventory (releaseStock "PROD-1" 7
               (stock_call (Reserve "PROD-1" 7) initial)) = inventory initial.
Proof.
  apply (reserve_release_round_trip "PROD-1" 7 initial _
           (mkInventoryItem "PROD-1" 10 0) (mkReserveResult true 10)).
  - reflexivity.
  - cbn. lia.
  - vm_compute. split; discriminate.
  - vm_compute. split; discriminate.
  - vm_compute. split; discriminate.
  - reflexivity.
  - reflexivity.
Defined.

(** What a loop iteration does to the inventory and to the suspended
    invocations. *)
Lemma resume_inventory_tasks (orderId : string) (item : OrderItem)
    (rest res : list OrderItem) (s : State) :
  inventory (handleOrderPlaced_resume orderId (mkTask (item :: rest) res) s) =
    inventory (stock_call (Reserve (productId item) (quantity item)) s)
  ∧ (tasks (handleOrderPlaced_resume orderId (mkTask (item :: rest) res) s) = tasks s
     ∨ tasks (handleOrderPlaced_resume orderId (mkTask (item :: rest) res) s)
         = delete orderId (tasks s)
     ∨ ∃ res', tasks (handleOrderPlaced_resume orderId (mkTask (item :: rest) res) s)
                 = <[orderId := mkTask rest res']> (tasks s)).
Proof.
  unfold handleOrderPlaced_resume. cbn [task_pending task_reservations stock_call].
  destruct (tryReserveStock (productId item) (quantity item) s) as [[r s1]|] eqn:Htry;
    [|by split; [|left]].
  destruct (tryReserveStock_frame _ _ _ _ _ Htry) as (_ & _ & _ & _ & Ht1 & _).
  assert (∀ res0, inventory (handleOrderPlaced_finish orderId res0
                     (if success r then s1
                      else publishOutOfStock orderId (productId item) (quantity item)
                             (availableQuantity r) s1)) = inventory s1
                  ∧ tasks (handleOrderPlaced_finish orderId res0
                     (if success r then s1
                      else publishOutOfStock orderId (productId item) (quantity item)
                             (availableQuantity r) s1)) = tasks s1) as Hfin.
  { intros res0. unfold handleOrderPlaced_finish, publishStockReserved, publishOutOfStock.
    destruct (0 <? length res0)%nat.
    - match goal with |- context [handleStockReserved ?a ?b ?c] =>
        destruct (handleStockReserved_frame a b c) as (-> & _ & _ & ->) end.
      cbn. destruct (success r); [done|].
      match goal with |- context [handleOutOfStock ?a ?b ?c ?d ?e] =>
        by destruct (handleOutOfStock_frame a b c d e) as (-> & _ & _ & ->) end.
    - destruct (success r); [done|].
      match goal with |- context [handleOutOfStock ?a ?b ?c ?d ?e] =>
        by destruct (handleOutOfStock_frame a b c d e) as (-> & _ & _ & ->) end. }
  destruct rest as [|item' rest']; cbn [inventory tasks set_tasks].
  - destruct (Hfin (if success r
                    then res ++ [mkOrderItem (productId item) (quantity item)]
                    else res)) as [-> ->].
    split; [done|]. right. left. by rewrite Ht1.
  - destruct (Hfin []) as [Hi Ht]. cbn in Hi, Ht. rewrite Hi, Ht.
    split; [done|]. right. right. rewrite Ht1. eauto.
Qed.






Lemma stock_call_productId (pid : string) (c : StockCall) (s : State) (item : InventoryItem) :
  inventory s !! pid = Some item →
  ∃ item', inventory (stock_call c s) !! pid = Some item'
           ∧ inv_productId item' = inv_productId item
           ∧ inv_quantity item' = inv_quantity item.
Proof.
  intros Hitem. destruct c as [p q|p q]; cbn [stock_call].
  - unfold tryReserveStock.
    destruct (lockMap s !! p) as [[]|]; cbn [inventory set_lockMap]; eauto.
    all: destruct (inventory s !! p) as [it|] eqn:Hp; cbn; eauto.
    all: destruct (q <=? _); cbn; eauto.
    all: destruct (decide (p = pid)) as [->|Hne];
      [rewrite lookup_insert_eq; assert (it = item) as -> by congruence; eauto
      |rewrite lookup_insert_ne by done; eauto].
  - unfold releaseStock. destruct (inventory s !! p) as [it|] eqn:Hp; eauto.
    destruct (q <=? _); cbn; eauto.
    destruct (decide (p = pid)) as [->|Hne];
      [rewrite lookup_insert_eq; assert (it = item) as -> by congruence; eauto
      |rewrite lookup_insert_ne by done; eauto].
Qed.

Lemma run_action_inventory (a : Action) (s : State) :
  is_addInventory a = false →
  inventory (run_action a s) = inventory s
  ∨ ∃ c, inventory (run_action a s) = inventory (stock_call c s).
Proof.
  intros Ha. destruct a as [id items|orderId|pid q|pid q|t]; cbn [run_action]; try done.
  - left. by destruct (createOrder_frame id items s) as (_ & -> & _).
  - destruct (tasks s !! orderId) as [[[|item rest] res]|]; [by left| |by left].
    right. exists (Reserve (productId item) (quantity item)).
    by destruct (resume_inventory_tasks orderId item rest res s) as [-> _].
  - right. by exists (Release pid q).
  - by left.
Qed.

(** X4. Only [addInventory] creates inventory records or changes a total
    quantity: over any run without [addInventory] a product that has a record
    keeps it, with the same product id and the same total quantity, and a
    product without a record stays without one, whatever orders are placed
    and processed. *)
Theorem inventory_records_persist (acts : list Action) (s : State) (pid : string) :
  Forall (λ a, is_addInventory a = false) acts →
  match getInventory pid s with
  | Some item =>
      ∃ item', getInventory pid (run acts s) = Some item'
               ∧ inv_productId item' = inv_productId item
               ∧ inv_quantity item' = inv_quantity item
  | None => getInventory pid (run acts s) = None
  end.
Proof.
  unfold getInventory. intros Hacts. revert s.
  induction Hacts as [|a acts Ha _ IH]; intros s.
  { cbn. destruct (inventory s !! pid); eauto. }
  cbn [run foldl]. specialize (IH (run_action a s)). fold (run acts (run_action a s)) in IH.
  destruct (inventory s !! pid) as [item|] eqn:Hitem.
  - assert (∃ it, inventory (run_action a s) !! pid = Some it
                  ∧ inv_productId it = inv_productId item
                  ∧ inv_quantity it = inv_quantity item) as (it & Hit & Hp & Hq).
    { destruct (run_action_inventory a s Ha) as [->|[c ->]]; [eauto|].
      by apply stock_call_productId. }
    rewrite Hit in IH. destruct IH as (item' & ? & ? & ?).
    exists item'. split; [done|]. split; congruence.
  - assert (inventory (run_action a s) !! pid = None) as Hnone.
    { destruct (run_action_inventory a s Ha) as [->|[c ->]]; [done|].
      by apply stock_call_absent. }
    by rewrite Hnone in IH.
Qed.

Lemma inventory_records_persist_witness :
  match getInventory "PROD-1" initial with
  | Some item =>
      ∃ item', getInventory "PROD-1" (run concurrent_orders initial) = Some item'
               ∧ inv_productId item' = inv_productId item
               ∧ inv_quantity item' = inv_quantity item
  | None => getInventory "PROD-1" (run concurrent_orders initial) = None
  end.
Proof.
  apply (inventory_records_persist concurrent_orders initial "PROD-1").
  unfold concurrent_orders. repeat constructor.
Defined.

(** ** Turns of the whole process, handler by handler *)

(** A property of the orders, the shipments and the bus trace that every
    handler invocation preserves is preserved by every turn of the process. *)
Lemma turn_handlers (P : State → Prop) :
  (∀ s s', orders s' = orders s → shipments s' = shipments s →
           published s' = published s → P s → P s') →
  (∀ s k pid req av, P s → P (publishOutOfStock k pid req av s)) →
  (∀ s k items, items ≠ [] → P s → P (publishStockReserved k items s)) →
  (∀ s id items, orders s !! id = None → P s → P (createOrder id items s)) →
  (∀ s k i, P s → P (processShipment_resume k i s)) →
  ∀ s s', turn s s' → P s → P s'.
Proof.
  intros Hframe Hoos Hsr Hcreate Hship s s' Hturn HP.
  destruct Hturn as [s s' Hstep|k i s]; [|by apply Hship].
  destruct Hstep as [id items s Hfresh|orderId s|pid q s|pid q s|t s].
  - by apply Hcreate.
  - cbn [run_action]. destruct (tasks s !! orderId) as [t|]; [|done].
    unfold handleOrderPlaced_resume.
    destruct (task_pending t) as [|item rest]; [by apply (Hframe s)|].
    destruct (tryReserveStock (productId item) (quantity item) s) as [[r s1]|] eqn:Htry;
      [|done].
    destruct (tryReserveStock_frame _ _ _ _ _ Htry) as (Ho1 & Hs1 & Hp1 & _).
    assert (P s1) as HP1 by by apply (Hframe s).
    assert (P (if success r then s1
               else publishOutOfStock orderId (productId item) (quantity item)
                      (availableQuantity r) s1)) as HP2.
    { destruct (success r); [done|by apply Hoos]. }
    destruct rest as [|item' rest'].
    + match goal with |- P (set_tasks _ ?x) => apply (Hframe x); [done..|] end.
      unfold handleOrderPlaced_finish.
      destruct (0 <? length _)%nat eqn:Hlen; [|done].
      apply Hsr; [|done]. intros Hnil. rewrite Hnil in Hlen. done.
    + match goal with |- P (set_tasks _ ?x) => by apply (Hframe x) end.
  - apply (Hframe s); [..|done]; unfold addInventory; by destruct (inventory s !! pid).
  - apply (Hframe s); [..|done]; unfold releaseStock;
      destruct (inventory s !! pid); try done; by destruct (q <=? _).
  - by apply (Hframe s).
Qed.

Lemma filter_bool_snoc {A} (f : A → bool) (l : list A) (x : A) :
  filter (λ e, f e) (l ++ [x]) = filter (λ e, f e) l ++ (if f x then [x] else []).
Proof.
  rewrite filter_app. f_equal. rewrite filter_cons, filter_nil.
  by destruct (f x).
Qed.

Lemma shipment_lines_items (k : string) (t : Z) (items : list OrderItem) :
  shipment_line_item <$> shipment_lines k t items = items.
Proof.
  unfold shipment_lines. induction items as [|[p q] items IH]; [done|].
  cbn. f_equal. exact IH.
Qed.

Lemma shipment_lines_pending (k : string) (t : Z) (items : list OrderItem) :
  Forall (λ l, ship_orderId l = k) (shipment_lines k t items)
  ∧ sum_list (line_shipped <$> shipment_lines k t items) = 0%nat
  ∧ sum_list (line_delivered <$> shipment_lines k t items) = 0%nat.
Proof.
  unfold shipment_lines. induction items as [|item items (IH1 & IH2 & IH3)]; [done|].
  cbn. split; [by constructor|]. done.
Qed.

(** What the two saga handlers do beside updating the order they find. *)
Lemma handleOutOfStock_shipping (k pid : string) (req av : Z) (s : State) (o : Order) :
  orders s !! k = Some o →
  order_id o = k →
  let o' := saga_outOfStock pid req av (now s) o in
  let s' := handleOutOfStock k pid req av s in
  (isOrderComplete o' = true
   ∧ fulfillableItems o' ≠ []
   ∧ status o' = partial
   ∧ shipments s' = <[k := shipment_lines k (now s) (fulfillableItems o')]> (shipments s)
   ∧ published s' = published s ++ [OrderReadyForShipping k (fulfillableItems o')])
  ∨ (((isOrderComplete o' = true ∧ fulfillableItems o' = [] ∧ status o' = cancelled)
      ∨ (isOrderComplete o' = false ∧ status o' = status o))
     ∧ shipments s' = shipments s
     ∧ published s' = published s).
Proof.
  intros Ho Hid. cbv zeta. unfold handleOutOfStock, saga_outOfStock. rewrite Ho. cbv zeta.
  match goal with |- context [if isOrderComplete ?x then _ else _] => set (o1 := x) end.
  destruct (isOrderComplete o1) eqn:Hc; [|right; auto].
  match goal with |- context [updateOrderStatus ?a ?b ?c] =>
    destruct (updateOrderStatus_frame a b c) as (_ & _ & -> & -> & _) end.
  change (isOrderComplete (with_status _ _ o1)) with (isOrderComplete o1).
  change (fulfillableItems (with_status _ _ o1)) with (fulfillableItems o1).
  destruct (fulfillableItems o1) as [|x f1] eqn:Hf; cbn [length Nat.ltb Nat.leb].
  - right. cbn. auto.
  - left. cbn. rewrite Hid. auto.
Qed.

Lemma handleStockReserved_shipping (k : string) (items : list OrderItem) (s : State) (o : Order) :
  orders s !! k = Some o →
  order_id o = k →
  let o' := saga_stockReserved items (now s) o in
  let s' := handleStockReserved k items s in
  (isOrderComplete o' = true
   ∧ status o' = (if (0 <? length (unfulfillableItems o'))%nat then partial else fulfilled)
   ∧ shipments s' = <[k := shipment_lines k (now s) (fulfillableItems o')]> (shipments s)
   ∧ published s' = published s ++ [OrderReadyForShipping k (fulfillableItems o')])
  ∨ (isOrderComplete o' = false
     ∧ status o' = status o
     ∧ shipments s' = shipments s
     ∧ published s' = published s).
Proof.
  intros Ho Hid. cbv zeta. unfold handleStockReserved, saga_stockReserved. rewrite Ho. cbv zeta.
  match goal with |- context [if isOrderComplete ?x then _ else _] => set (o1 := x) end.
  destruct (isOrderComplete o1) eqn:Hc; [|right; auto].
  match goal with |- context [updateOrderStatus ?a ?b ?c] =>
    destruct (updateOrderStatus_frame a b c) as (_ & _ & -> & -> & _) end.
  left. cbn. rewrite Hid. auto.
Qed.

(** ** The invariant that links shipments to orders *)

Lemma shipping_inv_update (s s' : State) (k : string) (o' : Order) :
  shipping_inv s →
  orders s' = <[k := o']> (orders s) →
  (∀ k', k' ≠ k →
         shipments s' !! k' = shipments s !! k'
         ∧ ready_events k' (published s') = ready_events k' (published s)
         ∧ shipped_events k' (published s') = shipped_events k' (published s)
         ∧ delivered_events k' (published s') = delivered_events k' (published s)) →
  order_id o' = k →
  (is_terminal (status o') → overfull o') →
  ship_rel k (shipments s' !! k) (published s') o' →
  shipping_inv s'.
Proof.
  intros [Hunk Hords] Horders Hframe Hid Hterm Hrel. split.
  - intros k'. rewrite Horders. intros [Hne Hk']%lookup_insert_None.
    destruct (Hframe k') as (-> & -> & -> & ->); [done|]. by apply Hunk.
  - intros k' o''. rewrite Horders.
    intros [[<- <-]|[Hne Hk']]%lookup_insert_Some; [done|].
    unfold ship_rel.
    destruct (Hframe k') as (-> & -> & -> & ->); [done|]. by apply Hords.
Qed.

Lemma shipping_inv_frame (s s' : State) :
  orders s' = orders s → shipments s' = shipments s → published s' = published s →
  shipping_inv s → shipping_inv s'.
Proof.
  intros HO HS HP [Hunk Hords]. split.
  - intros k. rewrite HO, HS, HP. apply Hunk.
  - intros k o. rewrite HO, HS, HP. apply Hords.
Qed.

(** An event that is neither [OrderReadyForShipping] nor a shipment milestone
    leaves the invariant alone when it is recorded. *)
Lemma shipping_inv_record (e : Event) (s : State) :
  (∀ k, ready_event_of k e = false ∧ shipped_event_of k e = false
        ∧ delivered_event_of k e = false) →
  shipping_inv s → shipping_inv (record_event e s).
Proof.
  intros He [Hunk Hords].
  assert (∀ k, ready_events k (published s ++ [e]) = ready_events k (published s)
               ∧ shipped_events k (published s ++ [e]) = shipped_events k (published s)
               ∧ delivered_events k (published s ++ [e]) = delivered_events k (published s))
    as Hsame.
  { intros k. destruct (He k) as (H1 & H2 & H3).
    unfold ready_events, shipped_events, delivered_events.
    rewrite !filter_bool_snoc, H1, H2, H3, !app_nil_r. done. }
  split; cbn [orders shipments published record_event].
  - intros k Hk. destruct (Hsame k) as (-> & -> & ->). by apply Hunk.
  - intros k o Hk. destruct (Hords k o Hk) as (Hid & Hterm & Hrel).
    split; [done|]. split; [done|].
    unfold ship_rel in *. destruct (Hsame k) as (-> & -> & ->). done.
Qed.

Lemma ship_rel_not_pending (k : string) (entry : option (list ShipmentItem))
    (trace : list Event) (o : Order) :
  ship_rel k entry trace o → status o ≠ pending.
Proof.
  unfold ship_rel. destruct entry; intros ([->| ->] & _); done.
Qed.

Lemma overfull_outOfStock (pid : string) (req av t : Z) (o : Order) :
  overfull o → isOrderComplete (saga_outOfStock pid req av t o) = false.
Proof.
  intros Hfull. apply Nat.eqb_neq.
  destruct (saga_outOfStock_fields pid req av t o) as (_ & -> & -> & ->).
  unfold overfull in Hfull. rewrite length_app. cbn [length].
  destruct (0 <? av); rewrite ?length_app; cbn [length]; lia.
Qed.

Lemma overfull_stockReserved (items : list OrderItem) (t : Z) (o : Order) :
  items ≠ [] → overfull o → isOrderComplete (saga_stockReserved items t o) = false.
Proof.
  intros Hitems Hfull. apply Nat.eqb_neq.
  destruct (saga_stockReserved_fields items t o) as (_ & -> & -> & ->).
  unfold overfull in Hfull. rewrite length_app.
  destruct items; [done|]. cbn [length]. lia.
Qed.

(** The shipment entry of an order whose handler has just published
    [OrderReadyForShipping]. *)
Lemma ship_rel_published (k : string) (t : Z) (trace : list Event) (o' : Order) :
  status o' = partial ∨ status o' = fulfilled →
  fulfillableItems o' ≠ [] →
  ready_events k trace = [] →
  shipped_events k trace = [] →
  delivered_events k trace = [] →
  ship_rel k (Some (shipment_lines k t (fulfillableItems o')))
    (trace ++ [OrderReadyForShipping k (fulfillableItems o')]) o'.
Proof.
  intros Hst Hf Hr Hs Hd. unfold ship_rel.
  destruct (shipment_lines_pending k t (fulfillableItems o')) as (Hall & Hsum1 & Hsum2).
  rewrite shipment_lines_items, Hsum1, Hsum2.
  unfold ready_events, shipped_events, delivered_events in *.
  rewrite !filter_bool_snoc, Hr, Hs, Hd. cbn [ready_event_of shipped_event_of delivered_event_of].
  rewrite bool_decide_true by done.
  split; [done|]. split.
  { intros Hnil. apply Hf. rewrite <- (shipment_lines_items k t (fulfillableItems o')).
    by rewrite Hnil. }
  done.
Qed.

Lemma ready_other (k k' : string) (items : list OrderItem) (trace : list Event) :
  k' ≠ k →
  ready_events k' (trace ++ [OrderReadyForShipping k items]) = ready_events k' trace
  ∧ shipped_events k' (trace ++ [OrderReadyForShipping k items]) = shipped_events k' trace
  ∧ delivered_events k' (trace ++ [OrderReadyForShipping k items])
      = delivered_events k' trace.
Proof.
  intros Hne. unfold ready_events, shipped_events, delivered_events.
  rewrite !filter_bool_snoc. cbn [ready_event_of shipped_event_of delivered_event_of].
  rewrite bool_decide_false by done. by rewrite !app_nil_r.
Qed.

Lemma handleOutOfStock_shi (k pid : string) (req av : Z) (s : State) :
  shipping_inv s → shipping_inv (handleOutOfStock k pid req av s).
Proof.
  intros Hinv.
  destruct (orders s !! k) as [o|] eqn:Ho;
    [|unfold handleOutOfStock; by rewrite Ho].
  destruct (shi_orders s Hinv k o Ho) as (Hid & Hterm & Hrel).
  pose proof (ship_rel_not_pending _ _ _ _ Hrel) as Hnp.
  destruct (saga_outOfStock_terminal pid req av (now s) o Hnp Hterm) as [_ Hterm'].
  destruct (saga_outOfStock_fields pid req av (now s) o) as (Hid' & Hit' & Hu' & Hf').
  pose proof (handleOutOfStock_orders k pid req av s o Ho Hid) as Horders.
  destruct (handleOutOfStock_shipping k pid req av s o Ho Hid)
    as [(Hc & Hfne & Hst & Hsh & Hpub)|(Hcase & Hsh & Hpub)].
  - (* the handler publishes [OrderReadyForShipping] *)
    assert (¬ is_terminal (status o)) as Hnt.
    { intros Ht. rewrite (overfull_outOfStock pid req av (now s) o (Hterm Ht)) in Hc. done. }
    apply (shipping_inv_update s _ k _ Hinv Horders); [|congruence|done|].
    + intros k' Hne. rewrite Hsh, Hpub, lookup_insert_ne by done.
      split; [done|]. by apply ready_other.
    + rewrite Hsh, Hpub, lookup_insert_eq.
      unfold ship_rel in Hrel. destruct (shipments s !! k) as [lines|].
      { destruct Hrel as ([Hs|Hs] & _); rewrite Hs in Hnt; by destruct Hnt. }
      destruct Hrel as (_ & Hr & Hs & Hd).
      apply ship_rel_published; auto.
  - (* the handler publishes nothing *)
    apply (shipping_inv_update s _ k _ Hinv Horders); [|congruence|done|].
    + intros k' Hne. by rewrite Hsh, Hpub.
    + rewrite Hsh, Hpub. unfold ship_rel in *.
      destruct (shipments s !! k) as [lines|].
      * destruct Hrel as (Hst & Hne & Hall & Hpre & Hrest).
        assert (is_terminal (status o)) as Ht by (destruct Hst as [-> | ->]; done).
        destruct Hcase as [(Hc & _)|(_ & Hst')];
          [by rewrite (overfull_outOfStock pid req av (now s) o (Hterm Ht)) in Hc|].
        rewrite Hst'. split; [done|]. split; [done|]. split; [done|].
        split; [|done]. etrans; [exact Hpre|]. rewrite Hf'.
        destruct (0 <? av); [by apply prefix_app_r|done].
      * destruct Hrel as (Hst & Hrest). split; [|done].
        destruct Hcase as [(_ & _ & ->)|(_ & ->)]; auto.
Qed.

Lemma handleStockReserved_shi (k : string) (items : list OrderItem) (s : State) :
  items ≠ [] → shipping_inv s → shipping_inv (handleStockReserved k items s).
Proof.
  intros Hitems Hinv.
  destruct (orders s !! k) as [o|] eqn:Ho;
    [|unfold handleStockReserved; by rewrite Ho].
  destruct (shi_orders s Hinv k o Ho) as (Hid & Hterm & Hrel).
  pose proof (ship_rel_not_pending _ _ _ _ Hrel) as Hnp.
  destruct (saga_stockReserved_terminal items (now s) o Hnp Hterm) as [_ Hterm'].
  destruct (saga_stockReserved_fields items (now s) o) as (Hid' & Hit' & Hu' & Hf').
  pose proof (handleStockReserved_orders k items s o Ho Hid) as Horders.
  destruct (handleStockReserved_shipping k items s o Ho Hid)
    as [(Hc & Hst & Hsh & Hpub)|(Hc & Hst & Hsh & Hpub)].
  - assert (¬ is_terminal (status o)) as Hnt.
    { intros Ht.
      rewrite (overfull_stockReserved items (now s) o Hitems (Hterm Ht)) in Hc. done. }
    apply (shipping_inv_update s _ k _ Hinv Horders); [|congruence|done|].
    + intros k' Hne. rewrite Hsh, Hpub, lookup_insert_ne by done.
      split; [done|]. by apply ready_other.
    + rewrite Hsh, Hpub, lookup_insert_eq.
      unfold ship_rel in Hrel. destruct (shipments s !! k) as [lines|].
      { destruct Hrel as ([Hs|Hs] & _); rewrite Hs in Hnt; by destruct Hnt. }
      destruct Hrel as (_ & Hr & Hs & Hd).
      apply ship_rel_published; auto.
      * rewrite Hst. destruct (0 <? length _)%nat; auto.
      * rewrite Hf'. destruct items; [done|]. by destruct (fulfillableItems o).
  - apply (shipping_inv_update s _ k _ Hinv Horders); [|congruence|done|].
    + intros k' Hne. by rewrite Hsh, Hpub.
    + rewrite Hsh, Hpub. unfold ship_rel in *. rewrite Hst.
      destruct (shipments s !! k) as [lines|]; [|done].
      destruct Hrel as (Hst0 & Hne & Hall & Hpre & Hrest).
      split; [done|]. split; [done|]. split; [done|].
      split; [|done]. etrans; [exact Hpre|]. rewrite Hf'. by apply prefix_app_r.
Qed.

Lemma publishOutOfStock_shi (k pid : string) (req av : Z) (s : State) :
  shipping_inv s → shipping_inv (publishOutOfStock k pid req av s).
Proof.
  intros Hinv. unfold publishOutOfStock.
  by apply handleOutOfStock_shi, shipping_inv_record.
Qed.

Lemma publishStockReserved_shi (k : string) (items : list OrderItem) (s : State) :
  items ≠ [] → shipping_inv s → shipping_inv (publishStockReserved k items s).
Proof.
  intros Hitems Hinv. unfold publishStockReserved.
  by apply handleStockReserved_shi, shipping_inv_record.
Qed.

Lemma createOrder_shipments (id : string) (items : list OrderItem) (s : State) :
  shipments (createOrder id items s) = shipments s.
Proof.
  unfold createOrder. cbn [order_id order_items].
  match goal with |- context [updateOrderStatus ?a ?b ?c] =>
    destruct (updateOrderStatus_frame a b c) as (_ & _ & -> & _) end.
  by destruct (publishOrderPlaced_frame id items
                 (set_orders <[id := mkOrder id items pending [] [] (now s) (now s)]> s))
    as (_ & _ & _ & -> & _).
Qed.

Lemma createOrder_shi (id : string) (items : list OrderItem) (s : State) :
  orders s !! id = None → shipping_inv s → shipping_inv (createOrder id items s).
Proof.
  intros Hfresh Hinv.
  destruct (shi_unknown s Hinv id Hfresh) as (Hs & Hr & Hsh & Hd).
  destruct (createOrder_frame id items s) as (_ & _ & HP & _).
  pose proof (shipping_inv_record (OrderPlaced id items) s (λ _, ltac:(done)) Hinv) as Hinv'.
  apply (shipping_inv_update (record_event (OrderPlaced id items) s) _ id
           (mkOrder id items processing [] [] (now s) (now s)) Hinv').
  - exact (createOrder_lookup id items s).
  - intros k' Hne. by rewrite createOrder_shipments, HP.
  - done.
  - done.
  - rewrite createOrder_shipments, HP, Hs. unfold ship_rel.
    destruct (shi_unknown _ Hinv' id Hfresh) as (_ & Hr' & Hsh' & Hd').
    cbn [published record_event] in Hr', Hsh', Hd'. auto.
Qed.

Lemma sum_list_fmap_insert {A} (f : A → nat) (l : list A) (i : nat) (x y : A) :
  l !! i = Some x →
  (sum_list (f <$> <[i := y]> l) + f x = sum_list (f <$> l) + f y)%nat.
Proof.
  revert i. induction l as [|z l IH]; intros [|i] Hi; try done; cbn in *.
  - injection Hi as ->. lia.
  - specialize (IH i Hi). rewrite <- !Nat.add_assoc. f_equal. exact IH.
Qed.

Lemma fmap_insert_same {A B} (f : A → B) (l : list A) (i : nat) (x y : A) :
  l !! i = Some x → f y = f x → f <$> <[i := y]> l = f <$> l.
Proof.
  intros Hi Hf. rewrite list_fmap_insert, Hf.
  apply list_insert_id. by rewrite list_lookup_fmap, Hi.
Qed.

(** What the resumption of a shipment does when a timer is outstanding for
    the line. *)
Lemma processShipment_resume_moves (k : string) (i : nat) (s : State)
    (lines : list ShipmentItem) (item : ShipmentItem) :
  shipments s !! k = Some lines →
  lines !! i = Some item →
  ship_status item ≠ delivered →
  let st' := match ship_status item with ship_pending => shipped | _ => delivered end in
  let e := match ship_status item with
           | ship_pending =>
               ItemShipped (ship_orderId item) (ship_productId item) (ship_quantity item)
           | _ => ItemDelivered (ship_orderId item) (ship_productId item) (ship_quantity item)
           end in
  processShipment_resume k i s =
    record_event e
      (set_shipments <[k := <[i := with_ship_status st' (now s) item]> lines]> s).
Proof.
  intros Hk Hi Hst. unfold processShipment_resume. rewrite Hk, Hi.
  by destruct (ship_status item).
Qed.

Lemma processShipment_resume_shi (k : string) (i : nat) (s : State) :
  shipping_inv s → shipping_inv (processShipment_resume k i s).
Proof.
  intros Hinv.
  destruct (shipments s !! k) as [lines|] eqn:Hk;
    [|unfold processShipment_resume; by rewrite Hk].
  destruct (lines !! i) as [item|] eqn:Hi;
    [|unfold processShipment_resume; by rewrite Hk, Hi].
  assert (ship_status item = delivered ∨ ship_status item ≠ delivered) as [Hdel|Hdel]
    by (destruct (ship_status item); auto).
  { unfold processShipment_resume. by rewrite Hk, Hi, Hdel. }
  rewrite (processShipment_resume_moves k i s lines item Hk Hi Hdel). cbv zeta.
  destruct (orders s !! k) as [o|] eqn:Ho;
    [|destruct (shi_unknown s Hinv k Ho) as (Hnone & _); congruence].
  destruct (shi_orders s Hinv k o Ho) as (Hid & Hterm & Hrel).
  rewrite Hk in Hrel. destruct Hrel as (Hst & Hne & Hall & Hpre & Hr & Hs & Hd).
  assert (ship_orderId item = k) as Hitem.
  { rewrite Forall_lookup in Hall. by apply (Hall i). }
  match goal with |- shipping_inv (record_event ?e (set_shipments ?f s)) =>
    set (ev := e); set (upd := f) end.
  assert (∀ k', k' ≠ k →
            ready_event_of k' ev = false ∧ shipped_event_of k' ev = false
            ∧ delivered_event_of k' ev = false) as Hother.
  { intros k' Hne'. subst ev. rewrite Hitem.
    destruct (ship_status item); cbn; by rewrite ?bool_decide_false. }
  apply (shipping_inv_update s _ k o Hinv);
    cbn [orders shipments published record_event set_shipments].
  - by rewrite insert_id.
  - intros k' Hne'. subst upd. rewrite lookup_insert_ne by done.
    destruct (Hother k' Hne') as (H1 & H2 & H3).
    unfold ready_events, shipped_events, delivered_events.
    by rewrite !filter_bool_snoc, H1, H2, H3, !app_nil_r.
  - done.
  - done.
  - subst upd. rewrite lookup_insert_eq. unfold ship_rel.
    split; [done|].
    split; [intros Hnil%(f_equal length); rewrite length_insert in Hnil; by destruct lines|].
    split; [apply Forall_insert; [done|by destruct (ship_status item)]|].
    split; [rewrite (fmap_insert_same shipment_line_item lines i item); done|].
    rewrite (fmap_insert_same shipment_line_item lines i item) by done.
    unfold ready_events, shipped_events, delivered_events in *.
    rewrite !filter_bool_snoc, !length_app.
    set (item' := with_ship_status (match ship_status item with
                                    | ship_pending => shipped | _ => delivered end)
                    (now s) item).
    pose proof (sum_list_fmap_insert line_shipped lines i item item' Hi) as Hsum1.
    pose proof (sum_list_fmap_insert line_delivered lines i item item' Hi) as Hsum2.
    subst ev item'. rewrite Hitem.
    destruct (ship_status item) eqn:Est; [| |done].
    + assert (line_shipped item = 0 ∧ line_delivered item = 0)%nat as [E1 E2]
        by (unfold line_shipped, line_delivered; by rewrite Est).
      rewrite E1, E2 in *.
      cbn [ready_event_of shipped_event_of delivered_event_of].
      rewrite bool_decide_true by done. rewrite !app_nil_r. cbn [length].
      change (line_shipped (with_ship_status shipped (now s) item)) with 1%nat in Hsum1.
      change (line_delivered (with_ship_status shipped (now s) item)) with 0%nat in Hsum2.
      split; [done|]. lia.
    + assert (line_shipped item = 1 ∧ line_delivered item = 0)%nat as [E1 E2]
        by (unfold line_shipped, line_delivered; by rewrite Est).
      rewrite E1, E2 in *.
      cbn [ready_event_of shipped_event_of delivered_event_of].
      rewrite bool_decide_true by done. rewrite !app_nil_r. cbn [length].
      change (line_shipped (with_ship_status delivered (now s) item)) with 1%nat in Hsum1.
      change (line_delivered (with_ship_status delivered (now s) item)) with 1%nat in Hsum2.
      split; [done|]. lia.
Qed.

Lemma initial_shi : shipping_inv initial.
Proof. split; done. Qed.

Lemma turn_shi (s s' : State) : turn s s' → shipping_inv s → shipping_inv s'.
Proof.
  apply (turn_handlers shipping_inv).
  - apply shipping_inv_frame.
  - intros. by apply publishOutOfStock_shi.
  - intros. by apply publishStockReserved_shi.
  - intros. by apply createOrder_shi.
  - intros. by apply processShipment_resume_shi.
Qed.

Lemma process_reachable_shi (s : State) : process_reachable s → shipping_inv s.
Proof.
  intros Hr. unfold process_reachable in Hr. revert s Hr.
  apply (rtc_ind_r shipping_inv initial initial_shi).
  intros s1 s2 _ Hturn IH. by apply (turn_shi s1).
Qed.

(** ** The saga invariant on the whole process *)

Lemma processShipment_resume_frame (k : string) (i : nat) (s : State) :
  orders (processShipment_resume k i s) = orders s
  ∧ inventory (processShipment_resume k i s) = inventory s
  ∧ lockMap (processShipment_resume k i s) = lockMap s
  ∧ tasks (processShipment_resume k i s) = tasks s
  ∧ ∀ k', ledger_events k' (published (processShipment_resume k i s))
          = ledger_events k' (published s).
Proof.
  unfold processShipment_resume.
  destruct (shipments s !! k) as [lines|]; [|done].
  destruct (lines !! i) as [item|]; [|done].
  destruct (ship_status item); cbn; try done.
  all: repeat (split; [done|]); intros k'; unfold ledger_events;
    by rewrite filter_bool_snoc, app_nil_r.
Qed.

Lemma turn_inv (s s' : State) : turn s s' → saga_inv s → saga_inv s'.
Proof.
  intros [s0 s1 Hstep|k i s0] Hinv; [by apply (step_inv s0)|].
  destruct (processShipment_resume_frame k i s0) as (HO & _ & HL & HT & HE).
  destruct Hinv as [Hlock Hunk Hords]. split.
  - by rewrite HL.
  - intros k'. rewrite HO, HT, HE. apply Hunk.
  - intros k' o. rewrite HO, HT, HE. apply Hords.
Qed.

Lemma process_reachable_inv (s : State) : process_reachable s → saga_inv s.
Proof.
  intros Hr. unfold process_reachable in Hr. revert s Hr.
  apply (rtc_ind_r saga_inv initial initial_inv).
  intros s1 s2 _ Hturn IH. by apply (turn_inv s1).
Qed.

(** X5. In every state the process can reach, whatever product and quantity
    [tryReserveStock] is called with, its first poll finds the lock free: the
    call returns in the turn in which it is made, and the lock of every
    product is free again when it returns. *)
Theorem tryReserveStock_never_waits (s : State) (pid : string) (q : Z) :
  process_reachable s →
  ∃ r s1, tryReserveStock pid q s = Some (r, s1)
          ∧ ∀ p, lockMap s1 !! p ≠ Some true.
Proof.
  intros Hr. pose proof (process_reachable_inv s Hr) as Hinv.
  destruct (tryReserveStock_returns pid q s (si_locks s Hinv pid)) as (r & s1 & Htry).
  exists r, s1. split; [done|].
  destruct (tryReserveStock_frame _ _ _ _ _ Htry) as (_ & _ & _ & _ & _ & ->).
  apply lock_released, Hinv.
Qed.

Lemma scenarioB_final_process_reachable : process_reachable scenarioB_final.
Proof.
  apply rtc_r with scenarioB_refused; [|apply turn_step, step_resume].
  apply rtc_r with scenarioB_placed; [|apply turn_step, step_resume].
  apply rtc_once, turn_step, step_create. reflexivity.
Qed.

Lemma tryReserveStock_never_waits_witness :
  ∃ r s1, tryReserveStock "PROD-3" 4 scenarioB_final = Some (r, s1)
          ∧ ∀ p, lockMap s1 !! p ≠ Some true.
Proof.
  apply (tryReserveStock_never_waits scenarioB_final "PROD-3" 4).
  exact scenarioB_final_process_reachable.
Defined.

(** ** Shipments and orders *)

(** X6. In every state the process can reach: an identifier without an order
    has no shipment entry; an order has a shipment entry exactly when its
    status is [partial] or [fulfilled] (never while it is [processing], never
    when it is [cancelled]); and the entry is not empty, all its lines carry
    the order's identifier, and their products and quantities are the first
    lines of the order's fulfillable list. *)
Theorem shipments_follow_status (s : State) (k : string) :
  process_reachable s →
  match getOrder k s with
  | None => getShipments k s = None
  | Some o =>
      (getShipments k s = None ↔ status o = processing ∨ status o = cancelled)
      ∧ ∀ lines, getShipments k s = Some lines →
                 (status o = partial ∨ status o = fulfilled)
                 ∧ lines ≠ []
                 ∧ Forall (λ l, ship_orderId l = k) lines
                 ∧ shipment_line_item <$> lines `prefix_of` fulfillableItems o
  end.
Proof.
  intros Hr. pose proof (process_reachable_shi s Hr) as Hinv.
  unfold getOrder, getShipments.
  destruct (orders s !! k) as [o|] eqn:Ho; [|by apply (shi_unknown s Hinv k Ho)].
  destruct (shi_orders s Hinv k o Ho) as (_ & _ & Hrel). unfold ship_rel in Hrel.
  destruct (shipments s !! k) as [lines|].
  - destruct Hrel as (Hst & Hne & Hall & Hpre & _). split.
    + split; [done|]. intros [Hs|Hs]; rewrite Hs in Hst; by destruct Hst.
    + by intros ? [= <-].
  - destruct Hrel as (Hst & _). split; [done|]. done.
Qed.

Lemma shipments_follow_status_witness :
  match getOrder "order-B" scenarioB_final with
  | None => getShipments "order-B" scenarioB_final = None
  | Some o =>
      (getShipments "order-B" scenarioB_final = None
       ↔ status o = processing ∨ status o = cancelled)
      ∧ ∀ lines, getShipments "order-B" scenarioB_final = Some lines →
                 (status o = partial ∨ status o = fulfilled)
                 ∧ lines ≠ []
                 ∧ Forall (λ l, ship_orderId l = "order-B") lines
                 ∧ shipment_line_item <$> lines `prefix_of` fulfillableItems o
  end.
Proof.
  apply (shipments_follow_status scenarioB_final "order-B").
  exact scenarioB_final_process_reachable.
Defined.

(** X7. In every state the process can reach, [OrderReadyForShipping] has
    been published at most once per order: never for an order without a
    shipment entry, and exactly once for an order with an entry, carrying
    the products and quantities of the lines of that entry. *)
Theorem ready_for_shipping_once (s : State) (k : string) :
  process_reachable s →
  ready_events k (published s) =
    match getShipments k s with
    | Some lines => [OrderReadyForShipping k (shipment_line_item <$> lines)]
    | None => []
    end.
Proof.
  intros Hr. pose proof (process_reachable_shi s Hr) as Hinv. unfold getShipments.
  destruct (orders s !! k) as [o|] eqn:Ho.
  - destruct (shi_orders s Hinv k o Ho) as (_ & _ & Hrel). unfold ship_rel in Hrel.
    destruct (shipments s !! k); [apply Hrel|apply Hrel].
  - by destruct (shi_unknown s Hinv k Ho) as (-> & -> & _).
Qed.

Lemma ready_for_shipping_once_witness :
  ready_events "order-B" (published scenarioB_final) =
    match getShipments "order-B" scenarioB_final with
    | Some lines => [OrderReadyForShipping "order-B" (shipment_line_item <$> lines)]
    | None => []
    end.
Proof.
  apply (ready_for_shipping_once scenarioB_final "order-B").
  exact scenarioB_final_process_reachable.
Defined.

Lemma line_sums (lines : list ShipmentItem) :
  (sum_list (line_delivered <$> lines) ≤ sum_list (line_shipped <$> lines)
   ∧ sum_list (line_shipped <$> lines) ≤ length lines)%nat.
Proof.
  induction lines as [|l lines [IH1 IH2]]; [done|].
  cbn. unfold line_delivered, line_shipped in *. destruct (ship_status l); lia.
Qed.

(** X8. In every state the process can reach, the number of [ItemShipped]
    events published for an order is the number of its shipment lines that
    are shipped or delivered, and the number of [ItemDelivered] events is the
    number of its delivered lines; so no line is shipped or delivered twice,
    there are never more deliveries than shipments, nor more shipments than
    lines, and an order without a shipment entry has no such event. *)
Theorem shipment_milestones (s : State) (k : string) :
  process_reachable s →
  length (shipped_events k (published s)) =
    sum_list (line_shipped <$> default [] (getShipments k s))
  ∧ length (delivered_events k (published s)) =
      sum_list (line_delivered <$> default [] (getShipments k s))
  ∧ (length (delivered_events k (published s))
     ≤ length (shipped_events k (published s)))%nat
  ∧ (length (shipped_events k (published s))
     ≤ length (default [] (getShipments k s)))%nat.
Proof.
  intros Hr. pose proof (process_reachable_shi s Hr) as Hinv. unfold getShipments.
  assert (length (shipped_events k (published s)) =
            sum_list (line_shipped <$> default [] (shipments s !! k))
          ∧ length (delivered_events k (published s)) =
              sum_list (line_delivered <$> default [] (shipments s !! k))) as [H1 H2].
  { destruct (orders s !! k) as [o|] eqn:Ho.
    - destruct (shi_orders s Hinv k o Ho) as (_ & _ & Hrel). unfold ship_rel in Hrel.
      destruct (shipments s !! k) as [lines|]; cbn.
      + by destruct Hrel as (_ & _ & _ & _ & _ & ? & ?).
      + by destruct Hrel as (_ & _ & -> & ->).
    - by destruct (shi_unknown s Hinv k Ho) as (-> & _ & -> & ->). }
  destruct (line_sums (default [] (shipments s !! k))) as [L1 L2].
  rewrite H1, H2. done.
Qed.

Lemma scenarioB_delivered_process_reachable : process_reachable scenarioB_delivered.
Proof.
  eapply rtc_r; [|apply turn_shipment].
  eapply rtc_r; [|apply turn_shipment].
  exact scenarioB_final_process_reachable.
Qed.

Lemma shipment_milestones_witness :
  length (shipped_events "order-B" (published scenarioB_delivered)) =
    sum_list (line_shipped <$> default [] (getShipments "order-B" scenarioB_delivered))
  ∧ length (delivered_events "order-B" (published scenarioB_delivered)) =
      sum_list (line_delivered <$> default [] (getShipments "order-B" scenarioB_delivered))
  ∧ (length (delivered_events "order-B" (published scenarioB_delivered))
     ≤ length (shipped_events "order-B" (published scenarioB_delivered)))%nat
  ∧ (length (shipped_events "order-B" (published scenarioB_delivered))
     ≤ length (default [] (getShipments "order-B" scenarioB_delivered)))%nat.
Proof.
  apply (shipment_milestones scenarioB_delivered "order-B").
  exact scenarioB_delivered_process_reachable.
Defined.

Lemma line_advances_refl (l : ShipmentItem) : line_advances l l.
Proof. unfold line_advances. auto. Qed.

Lemma line_advances_trans (l1 l2 l3 : ShipmentItem) :
  line_advances l1 l2 → line_advances l2 l3 → line_advances l1 l3.
Proof.
  unfold line_advances. intros (? & ? & ? & ?) (? & ? & ? & ?).
  repeat split; try congruence. lia.
Qed.

(** A saga handler leaves an existing shipment entry as it is. *)
Lemma handleOutOfStock_keeps_entry (k0 pid k : string) (req av : Z) (s : State)
    (lines : list ShipmentItem) :
  shipping_inv s → shipments s !! k = Some lines →
  shipments (handleOutOfStock k0 pid req av s) !! k = Some lines.
Proof.
  intros Hinv Hk.
  destruct (orders s !! k0) as [o|] eqn:Ho;
    [|unfold handleOutOfStock; by rewrite Ho].
  destruct (shi_orders s Hinv k0 o Ho) as (Hid & Hterm & Hrel).
  destruct (handleOutOfStock_shipping k0 pid req av s o Ho Hid)
    as [(Hc & _ & _ & -> & _)|(_ & -> & _)]; [|done].
  destruct (decide (k0 = k)) as [->|Hne]; [|by rewrite lookup_insert_ne].
  rewrite Hk in Hrel. destruct Hrel as (Hst & _).
  rewrite (overfull_outOfStock pid req av (now s) o) in Hc; [done|].
  apply Hterm. by destruct Hst as [-> | ->].
Qed.

Lemma handleStockReserved_keeps_entry (k0 k : string) (items : list OrderItem) (s : State)
    (lines : list ShipmentItem) :
  items ≠ [] → shipping_inv s → shipments s !! k = Some lines →
  shipments (handleStockReserved k0 items s) !! k = Some lines.
Proof.
  intros Hitems Hinv Hk.
  destruct (orders s !! k0) as [o|] eqn:Ho;
    [|unfold handleStockReserved; by rewrite Ho].
  destruct (shi_orders s Hinv k0 o Ho) as (Hid & Hterm & Hrel).
  destruct (handleStockReserved_shipping k0 items s o Ho Hid)
    as [(Hc & _ & -> & _)|(_ & _ & -> & _)]; [|done].
  destruct (decide (k0 = k)) as [->|Hne]; [|by rewrite lookup_insert_ne].
  rewrite Hk in Hrel. destruct Hrel as (Hst & _).
  rewrite (overfull_stockReserved items (now s) o Hitems) in Hc; [done|].
  apply Hterm. by destruct Hst as [-> | ->].
Qed.

Lemma insert_advances (lines : list ShipmentItem) (i : nat) (item : ShipmentItem)
    (st : ShipmentStatus) (t : Z) :
  lines !! i = Some item →
  (line_progress item ≤ line_progress (with_ship_status st t item))%nat →
  Forall2 line_advances lines (<[i := with_ship_status st t item]> lines).
Proof.
  intros Hi Hle. rewrite <- (list_insert_id lines i item Hi) at 1.
  apply Forall2_insert.
  - apply Forall_Forall2_diag, Forall_forall. intros. apply line_advances_refl.
  - unfold line_advances. auto.
Qed.

Lemma processShipment_resume_entry (k0 k : string) (i : nat) (s : State)
    (lines : list ShipmentItem) :
  shipments s !! k = Some lines →
  ∃ lines', shipments (processShipment_resume k0 i s) !! k = Some lines'
            ∧ Forall2 line_advances lines lines'.
Proof.
  intros Hk.
  assert (Forall2 line_advances lines lines) as Hrefl.
  { apply Forall_Forall2_diag, Forall_forall. intros. apply line_advances_refl. }
  unfold processShipment_resume.
  destruct (shipments s !! k0) as [lines0|] eqn:Hk0; [|eauto].
  destruct (lines0 !! i) as [item|] eqn:Hi; [|eauto].
  destruct (decide (k0 = k)) as [->|Hne].
  - assert (lines0 = lines) as -> by congruence.
    destruct (ship_status item) eqn:Est; cbn; rewrite ?lookup_insert_eq; [| |eauto].
    + eexists. split; [reflexivity|]. apply insert_advances; [done|].
      unfold line_progress, line_shipped, line_delivered. rewrite Est. cbn. lia.
    + eexists. split; [reflexivity|]. apply insert_advances; [done|].
      unfold line_progress, line_shipped, line_delivered. rewrite Est. cbn. lia.
  - destruct (ship_status item); cbn; rewrite ?lookup_insert_ne by done; eauto.
Qed.

Lemma turn_keeps_entry (k : string) (lines : list ShipmentItem) (s s' : State) :
  turn s s' →
  (shipping_inv s
   ∧ ∃ lines1, shipments s !! k = Some lines1 ∧ Forall2 line_advances lines lines1) →
  shipping_inv s'
  ∧ ∃ lines', shipments s' !! k = Some lines' ∧ Forall2 line_advances lines lines'.
Proof.
  apply (turn_handlers
           (λ s, shipping_inv s
                 ∧ ∃ lines1, shipments s !! k = Some lines1
                             ∧ Forall2 line_advances lines lines1)).
  - intros s0 s1 HO HS HP [Hinv Hl]. split; [by apply (shipping_inv_frame s0)|].
    by rewrite HS.
  - intros s0 k0 pid req av [Hinv (lines1 & Hk & Hadv)].
    split; [by apply publishOutOfStock_shi|]. exists lines1. split; [|done].
    unfold publishOutOfStock. apply handleOutOfStock_keeps_entry; [|done].
    by apply shipping_inv_record.
  - intros s0 k0 items Hitems [Hinv (lines1 & Hk & Hadv)].
    split; [by apply publishStockReserved_shi|]. exists lines1. split; [|done].
    unfold publishStockReserved. apply handleStockReserved_keeps_entry; [done| |done].
    by apply shipping_inv_record.
  - intros s0 id items Hfresh [Hinv Hl]. split; [by apply createOrder_shi|].
    by rewrite createOrder_shipments.
  - intros s0 k0 i [Hinv (lines1 & Hk & Hadv)].
    split; [by apply processShipment_resume_shi|].
    destruct (processShipment_resume_entry k0 k i s0 lines1 Hk) as (lines' & Hk' & Hadv').
    exists lines'. split; [done|].
    apply (Forall2_trans line_advances line_advances line_advances lines lines1 lines');
      [apply line_advances_trans|done|done].
Qed.

(** X9. A shipment entry is written once: from any state the process can
    reach, over any number of further turns, the entry of an order is never
    removed or replaced.  It keeps the same number of lines, and each line
    keeps its order, product and quantity while its status only moves forward
    (pending, then shipped, then delivered). *)
Theorem shipments_written_once (s s' : State) (k : string) (lines : list ShipmentItem) :
  process_reachable s →
  rtc turn s s' →
  getShipments k s = Some lines →
  ∃ lines', getShipments k s' = Some lines'
            ∧ length lines' = length lines
            ∧ Forall2 line_advances lines lines'.
Proof.
  unfold getShipments. intros Hr Hsteps Hk.
  assert (shipping_inv s'
          ∧ ∃ lines', shipments s' !! k = Some lines' ∧ Forall2 line_advances lines lines')
    as (_ & lines' & Hk' & Hadv).
  { revert s' Hsteps.
    apply (rtc_ind_r (λ s', shipping_inv s'
             ∧ ∃ lines', shipments s' !! k = Some lines'
                         ∧ Forall2 line_advances lines lines') s).
    - split; [by apply process_reachable_shi|]. exists lines. split; [done|].
      apply Forall_Forall2_diag, Forall_forall. intros. apply line_advances_refl.
    - intros s1 s2 _ Hturn IH. by apply (turn_keeps_entry k lines s1). }
  exists lines'. split; [done|]. split; [|done].
  symmetry. by apply (Forall2_length line_advances).
Qed.

Lemma shipments_written_once_witness :
  ∃ lines', getShipments "order-B" scenarioB_delivered = Some lines'
            ∧ length lines' = length [mkShipmentItem "order-B" "PROD-2" 5 ship_pending 0]
            ∧ Forall2 line_advances
                [mkShipmentItem "order-B" "PROD-2" 5 ship_pending 0] lines'.
Proof.
  apply (shipments_written_once scenarioB_final scenarioB_delivered "order-B").
  - exact scenarioB_final_process_reachable.
  - eapply rtc_l; [apply turn_shipment|]. apply rtc_once, turn_shipment.
  - reflexivity.
Defined.

(** X10. The two resumptions of [processShipment] on a pending line: the
    first makes the line shipped and publishes [ItemShipped], the second makes
    it delivered and publishes [ItemDelivered], in this order and with the
    order, product and quantity of the line; nothing else in the entry, the
    orders or the inventory changes, and a further resumption does nothing. *)
Theorem shipment_delivered_in_two_turns (k : string) (i : nat) (s : State)
    (lines : list ShipmentItem) (item : ShipmentItem) :
  getShipments k s = Some lines →
  lines !! i = Some item →
  ship_status item = ship_pending →
  let s2 := processShipment_resume k i (processShipment_resume k i s) in
  published s2 =
    published s
      ++ [ItemShipped (ship_orderId item) (ship_productId item) (ship_quantity item);
          ItemDelivered (ship_orderId item) (ship_productId item) (ship_quantity item)]
  ∧ getShipments k s2 = Some (<[i := with_ship_status delivered (now s) item]> lines)
  ∧ (∀ k', k' ≠ k → getShipments k' s2 = getShipments k' s)
  ∧ orders s2 = orders s
  ∧ inventory s2 = inventory s
  ∧ processShipment_resume k i s2 = s2.
Proof.
  unfold getShipments. intros Hk Hi Hst. cbv zeta.
  assert (i < length lines)%nat as Hlt by by apply lookup_lt_Some with item.
  assert (processShipment_resume k i s =
            record_event
              (ItemShipped (ship_orderId item) (ship_productId item) (ship_quantity item))
              (set_shipments <[k := <[i := with_ship_status shipped (now s) item]> lines]> s))
    as ->.
  { unfold processShipment_resume. by rewrite Hk, Hi, Hst. }
  set (item1 := with_ship_status shipped (now s) item).
  set (s1 := record_event _ _).
  assert (processShipment_resume k i s1 =
            record_event
              (ItemDelivered (ship_orderId item) (ship_productId item) (ship_quantity item))
              (set_shipments
                 <[k := <[i := with_ship_status delivered (now s) item1]>
                          (<[i := item1]> lines)]> s1)) as ->.
  { unfold processShipment_resume. subst s1. cbn [shipments record_event set_shipments].
    rewrite lookup_insert_eq. cbv beta iota.
    rewrite list_lookup_insert_eq by done. done. }
  subst s1 item1.
  cbn [ship_status with_ship_status record_event set_shipments shipments
       orders inventory lockMap published now tasks
       ship_orderId ship_productId ship_quantity].
  rewrite insert_insert_eq, list_insert_insert_eq, <- app_assoc, lookup_insert_eq.
  split; [done|]. split; [done|].
  split; [intros k' Hne; by rewrite lookup_insert_ne|].
  split; [done|]. split; [done|].
  unfold processShipment_resume. cbn [shipments record_event set_shipments].
  rewrite lookup_insert_eq. cbv beta iota. rewrite list_lookup_insert_eq by done. done.
Qed.

Lemma shipment_delivered_in_two_turns_witness :
  published scenarioB_delivered =
    published scenarioB_final
      ++ [ItemShipped "order-B" "PROD-2" 5; ItemDelivered "order-B" "PROD-2" 5]
  ∧ getShipments "order-B" scenarioB_delivered =
      Some (<[0%nat := with_ship_status delivered (now scenarioB_final)
                         (mkShipmentItem "order-B" "PROD-2" 5 ship_pending 0)]>
              [mkShipmentItem "order-B" "PROD-2" 5 ship_pending 0])
  ∧ (∀ k', k' ≠ "order-B" →
           getShipments k' scenarioB_delivered = getShipments k' scenarioB_final)
  ∧ orders scenarioB_delivered = orders scenarioB_final
  ∧ inventory scenarioB_delivered = inventory scenarioB_final
  ∧ processShipment_resume "order-B" 0 scenarioB_delivered = scenarioB_delivered.
Proof.
  apply (shipment_delivered_in_two_turns "order-B" 0 scenarioB_final
           [mkShipmentItem "order-B" "PROD-2" 5 ship_pending 0]
           (mkShipmentItem "order-B" "PROD-2" 5 ship_pending 0)).
  - reflexivity.
  - reflexivity.
  - reflexivity.
Defined.

(** ** What the saga handlers decide *)

(** X11. The delivery of [StockReserved(orderId, items)] for a known order
    appends [items] to its fulfillable list and leaves the unfulfillable list
    alone.  If the order is then complete, its status becomes [fulfilled] when
    nothing is unfulfillable and [partial] otherwise,
    [OrderReadyForShipping] is published with the whole fulfillable list, and
    the shipping service stores one pending line per fulfillable line.  If it
    is not complete, the status stays, nothing more is published and no
    shipment changes. *)
Theorem stockReserved_outcome (s : State) (k : string) (o : Order) (items : list OrderItem) :
  process_reachable s →
  orders s !! k = Some o →
  ∃ o', orders (publish (StockReserved k items) s) !! k = Some o'
        ∧ order_items o' = order_items o
        ∧ fulfillableItems o' = fulfillableItems o ++ items
        ∧ unfulfillableItems o' = unfulfillableItems o
        ∧ (isOrderComplete o' = true →
           (unfulfillableItems o = [] → status o' = fulfilled)
           ∧ (unfulfillableItems o ≠ [] → status o' = partial)
           ∧ getShipments k (publish (StockReserved k items) s) =
               Some (shipment_lines k (now s) (fulfillableItems o ++ items))
           ∧ published (publish (StockReserved k items) s) =
               published s ++ [StockReserved k items;
                               OrderReadyForShipping k (fulfillableItems o ++ items)])
        ∧ (isOrderComplete o' = false →
           status o' = status o
           ∧ shipments (publish (StockReserved k items) s) = shipments s
           ∧ published (publish (StockReserved k items) s) =
               published s ++ [StockReserved k items]).
Proof.
  intros Hr Ho. destruct (shi_orders s (process_reachable_shi s Hr) k o Ho) as (Hid & _).
  cbn [publish]. unfold publishStockReserved, getShipments.
  set (s0 := record_event (StockReserved k items) s).
  rewrite (handleStockReserved_orders k items s0 o Ho Hid), lookup_insert_eq.
  change (now s0) with (now s).
  destruct (saga_stockReserved_fields items (now s) o) as (_ & Hit & Hu & Hf).
  eexists. split; [reflexivity|]. split; [done|]. split; [done|]. split; [done|].
  destruct (handleStockReserved_shipping k items s0 o Ho Hid)
    as [(Hc & Hst & Hsh & Hpub)|(Hc & Hst & Hsh & Hpub)];
    change (now s0) with (now s) in *; rewrite Hc, Hsh, Hpub.
  - split; [|done]. intros _. rewrite Hst, Hu, Hf, lookup_insert_eq.
    subst s0. cbn [published record_event]. rewrite <- app_assoc.
    split; [by intros ->|]. split; [|done].
    intros Hne. by destruct (unfulfillableItems o).
  - split; [done|]. intros _. done.
Qed.

Lemma stockReserved_outcome_witness :
  ∃ o', orders (publish (StockReserved "order-B" [mkOrderItem "PROD-3" 3]) scenarioB_refused)
          !! "order-B" = Some o'
        ∧ order_items o' = scenarioB_items
        ∧ fulfillableItems o' = [mkOrderItem "PROD-2" 5] ++ [mkOrderItem "PROD-3" 3]
        ∧ unfulfillableItems o' = [mkOrderItem "PROD-2" 2]
        ∧ (isOrderComplete o' = true →
           ([mkOrderItem "PROD-2" 2] = [] → status o' = fulfilled)
           ∧ ([mkOrderItem "PROD-2" 2] ≠ [] → status o' = partial)
           ∧ getShipments "order-B"
               (publish (StockReserved "order-B" [mkOrderItem "PROD-3" 3]) scenarioB_refused) =
               Some (shipment_lines "order-B" (now scenarioB_refused)
                       ([mkOrderItem "PROD-2" 5] ++ [mkOrderItem "PROD-3" 3]))
           ∧ published
               (publish (StockReserved "order-B" [mkOrderItem "PROD-3" 3]) scenarioB_refused) =
               published scenarioB_refused
                 ++ [StockReserved "order-B" [mkOrderItem "PROD-3" 3];
                     OrderReadyForShipping "order-B"
                       ([mkOrderItem "PROD-2" 5] ++ [mkOrderItem "PROD-3" 3])])
        ∧ (isOrderComplete o' = false →
           status o' = partial
           ∧ shipments
               (publish (StockReserved "order-B" [mkOrderItem "PROD-3" 3]) scenarioB_refused)
             = shipments scenarioB_refused
           ∧ published
               (publish (StockReserved "order-B" [mkOrderItem "PROD-3" 3]) scenarioB_refused) =
               published scenarioB_refused
                 ++ [StockReserved "order-B" [mkOrderItem "PROD-3" 3]]).
Proof.
  apply (stockReserved_outcome scenarioB_refused "order-B"
           (mkOrder "order-B" scenarioB_items partial
              [mkOrderItem "PROD-2" 5] [mkOrderItem "PROD-2" 2] 0 0)).
  - apply rtc_r with scenarioB_placed; [|apply turn_step, step_resume].
    apply rtc_once, turn_step, step_create. reflexivity.
  - reflexivity.
Defined.

(** X12. The delivery of [OutOfStock] for a known order, after the lists are
    updated as C7 says: if the order is then complete and its fulfillable
    list is not empty, the status becomes [partial], [OrderReadyForShipping]
    is published with the fulfillable list and the shipping service stores
    one pending line per fulfillable line; if it is complete with an empty
    fulfillable list the status becomes [cancelled] and nothing is shipped;
    if it is not complete the status stays and nothing is shipped. *)
Theorem outOfStock_outcome (s : State) (k pid : string) (req av : Z) (o : Order) :
  process_reachable s →
  orders s !! k = Some o →
  ∃ o', orders (publish (OutOfStock k pid req av) s) !! k = Some o'
        ∧ (isOrderComplete o' = true → fulfillableItems o' ≠ [] →
           status o' = partial
           ∧ getShipments k (publish (OutOfStock k pid req av) s) =
               Some (shipment_lines k (now s) (fulfillableItems o'))
           ∧ published (publish (OutOfStock k pid req av) s) =
               published s ++ [OutOfStock k pid req av;
                               OrderReadyForShipping k (fulfillableItems o')])
        ∧ (isOrderComplete o' = true → fulfillableItems o' = [] →
           status o' = cancelled
           ∧ shipments (publish (OutOfStock k pid req av) s) = shipments s
           ∧ published (publish (OutOfStock k pid req av) s) =
               published s ++ [OutOfStock k pid req av])
        ∧ (isOrderComplete o' = false →
           status o' = status o
           ∧ shipments (publish (OutOfStock k pid req av) s) = shipments s
           ∧ published (publish (OutOfStock k pid req av) s) =
               published s ++ [OutOfStock k pid req av]).
Proof.
  intros Hr Ho. destruct (shi_orders s (process_reachable_shi s Hr) k o Ho) as (Hid & _).
  cbn [publish]. unfold publishOutOfStock, getShipments.
  set (s0 := record_event (OutOfStock k pid req av) s).
  rewrite (handleOutOfStock_orders k pid req av s0 o Ho Hid), lookup_insert_eq.
  change (now s0) with (now s).
  eexists. split; [reflexivity|].
  destruct (handleOutOfStock_shipping k pid req av s0 o Ho Hid)
    as [(Hc & Hf & Hst & Hsh & Hpub)|([(Hc & Hf & Hst)|(Hc & Hst)] & Hsh & Hpub)];
    change (now s0) with (now s) in *; rewrite Hc, Hsh, Hpub.
  - split; [|split; [by intros _ ?|done]]. intros _ _. rewrite lookup_insert_eq.
    subst s0. cbn [published record_event]. by rewrite <- app_assoc.
  - split; [by intros _ ?|]. split; [|done]. done.
  - split; [done|]. split; [done|]. done.
Qed.

Lemma short_stock_reachable : process_reachable short_stock_placed.
Proof. apply rtc_once, turn_step, step_create. reflexivity. Qed.

Lemma outOfStock_outcome_witness :
  ∃ o', orders (publish (OutOfStock "order-S" "PROD-2" 7 0) short_stock_placed) !! "order-S"
          = Some o'
        ∧ (isOrderComplete o' = true → fulfillableItems o' ≠ [] →
           status o' = partial
           ∧ getShipments "order-S" (publish (OutOfStock "order-S" "PROD-2" 7 0)
                                       short_stock_placed) =
               Some (shipment_lines "order-S" (now short_stock_placed) (fulfillableItems o'))
           ∧ published (publish (OutOfStock "order-S" "PROD-2" 7 0) short_stock_placed) =
               published short_stock_placed
                 ++ [OutOfStock "order-S" "PROD-2" 7 0;
                     OrderReadyForShipping "order-S" (fulfillableItems o')])
        ∧ (isOrderComplete o' = true → fulfillableItems o' = [] →
           status o' = cancelled
           ∧ shipments (publish (OutOfStock "order-S" "PROD-2" 7 0) short_stock_placed)
               = shipments short_stock_placed
           ∧ published (publish (OutOfStock "order-S" "PROD-2" 7 0) short_stock_placed) =
               published short_stock_placed ++ [OutOfStock "order-S" "PROD-2" 7 0])
        ∧ (isOrderComplete o' = false →
           status o' = processing
           ∧ shipments (publish (OutOfStock "order-S" "PROD-2" 7 0) short_stock_placed)
               = shipments short_stock_placed
           ∧ published (publish (OutOfStock "order-S" "PROD-2" 7 0) short_stock_placed) =
               published short_stock_placed ++ [OutOfStock "order-S" "PROD-2" 7 0]).
Proof.
  apply (outOfStock_outcome short_stock_placed "order-S" "PROD-2" 7 0
           (mkOrder "order-S" [mkOrderItem "PROD-2" 7] processing [] [] 0 0)).
  - exact short_stock_reachable.
  - reflexivity.
Defined.

(** ** The status of orders whose lines are not split *)

Lemma refused_events_refusals (k : string) (outs : list (OrderItem * ReserveResult)) (e : Event) :
  e ∈ refused_events k outs → refusal_of k e = true.
Proof.
  induction outs as [|[it r] outs IH]; [by intros ?%elem_of_nil|].
  destruct (outcomes_cons k outs it r) as [-> _].
  destruct (success r); cbn [app]; [done|].
  intros [->|Hin]%elem_of_cons; [|by apply IH].
  cbn. by rewrite bool_decide_true.
Qed.

Lemma no_refusal_outcomes (k : string) (outs : list (OrderItem * ReserveResult)) :
  refused_events k outs = [] →
  granted_lines outs = outs.*1 ∧ unfulfillable_of outs = [] ∧ split_of outs = [].
Proof.
  induction outs as [|[it r] outs IH]; [done|].
  unfold refused_events, granted_lines, unfulfillable_of, split_of in *. cbn.
  destruct (success r); [|done]. cbn. intros Hnil.
  destruct (IH Hnil) as (-> & -> & ->). done.
Qed.

Lemma trace_without (f : Event → bool) (l : list Event) (e : Event) :
  forallb (λ e, negb (f e)) l = true → e ∈ l → f e = true → False.
Proof.
  rewrite forallb_forall. intros Hall Hin%list_elem_of_In He.
  specialize (Hall e Hin). rewrite He in Hall. done.
Qed.

Lemma ledger_events_in_trace (k : string) (l : list Event) (e : Event) :
  e ∈ ledger_events k l → e ∈ l.
Proof. unfold ledger_events. by intros [_ ?]%list_elem_of_filter. Qed.

(** X13. In every state the process can reach, an order with at least one
    line, none of them pending, about which no [OutOfStock] was published
    (every line was granted in full) is [fulfilled]: its fulfillable list is
    its list of requested lines, its unfulfillable list is empty, and it has
    a shipment entry. *)
Theorem granted_order_fulfilled (s : State) (k : string) (o : Order) :
  process_reachable s →
  orders s !! k = Some o →
  order_items o ≠ [] →
  pending_of k s = [] →
  forallb (λ e, negb (refusal_of k e)) (published s) = true →
  status o = fulfilled
  ∧ fulfillableItems o = order_items o
  ∧ unfulfillableItems o = []
  ∧ is_Some (getShipments k s).
Proof.
  intros Hr Ho Hitems Hpend Hnone.
  destruct (si_orders s (process_reachable_inv s Hr) k o Ho) as [outs Hoi].
  destruct Hoi as [_ Hit Htask Hev Hu Hf _ _ Hset].
  rewrite pending_of_task in Hpend.
  destruct (tasks s !! k) as [t|] eqn:Ht.
  { destruct (Htask t eq_refl) as [Hne _]. done. }
  cbn [from_option] in *. rewrite app_nil_r in Hit.
  assert (refused_events k outs = []) as Href.
  { destruct (refused_events k outs) as [|e l] eqn:E; [done|]. exfalso.
    apply (trace_without (refusal_of k) (published s) e Hnone).
    - apply (ledger_events_in_trace k). rewrite Hev. apply elem_of_app. left. left.
    - apply (refused_events_refusals k outs). rewrite E. left. }
  destruct (no_refusal_outcomes k outs Href) as (Hg & Hun & Hsp).
  assert (status o = fulfilled) as Hst.
  { rewrite (Hset Hsp). unfold settled_status. rewrite Hg, Hun, <- Hit.
    by destruct (order_items o). }
  split; [done|]. split; [by rewrite Hf, Hsp, Hg|]. split; [by rewrite Hu|].
  destruct (shi_orders s (process_reachable_shi s Hr) k o Ho) as (_ & _ & Hrel).
  unfold getShipments, ship_rel in *. destruct (shipments s !! k); [eauto|].
  destruct Hrel as ([Hs|Hs] & _); rewrite Hs in Hst; done.
Qed.

Lemma scenarioA_final_process_reachable : process_reachable scenarioA_final.
Proof.
  unfold scenarioA_final, run. cbn [foldl].
  eapply rtc_r; [|apply turn_step, step_resume].
  eapply rtc_r; [|apply turn_step, step_resume].
  apply rtc_once, turn_step, step_create. reflexivity.
Qed.

Lemma granted_order_fulfilled_witness :
  fulfilled = fulfilled
  ∧ scenarioA_items = scenarioA_items
  ∧ @nil OrderItem = []
  ∧ is_Some (getShipments "order-A" scenarioA_final).
Proof.
  apply (granted_order_fulfilled scenarioA_final "order-A"
           (mkOrder "order-A" scenarioA_items fulfilled scenarioA_items [] 0 0)).
  - exact scenarioA_final_process_reachable.
  - reflexivity.
  - discriminate.
  - reflexivity.
  - reflexivity.
Defined.

(** X14. In every state the process can reach, an order with at least one
    line, none of them pending, about which no [StockReserved] was published
    and whose [OutOfStock] events all report no available stock (every line
    was refused for lack of any stock) is [cancelled]: its fulfillable list is
    empty, its unfulfillable list has one line per requested line, and it has
    no shipment entry. *)
Theorem refused_order_cancelled (s : State) (k : string) (o : Order) :
  process_reachable s →
  orders s !! k = Some o →
  order_items o ≠ [] →
  pending_of k s = [] →
  forallb (λ e, negb (grant_of k e)) (published s) = true →
  forallb (no_split_event k) (published s) = true →
  status o = cancelled
  ∧ fulfillableItems o = []
  ∧ length (unfulfillableItems o) = length (order_items o)
  ∧ getShipments k s = None.
Proof.
  intros Hr Ho Hitems Hpend Hnogrant Hnosplit.
  destruct (si_orders s (process_reachable_inv s Hr) k o Ho) as [outs Hoi].
  destruct Hoi as [_ Hit Htask Hev Hu Hf _ _ Hset].
  rewrite pending_of_task in Hpend.
  destruct (tasks s !! k) as [t|] eqn:Ht.
  { destruct (Htask t eq_refl) as [Hne _]. done. }
  cbn [from_option] in *. rewrite app_nil_r in Hit.
  assert (granted_lines outs = []) as Hg.
  { destruct (granted_lines outs) as [|g l] eqn:E; [done|]. exfalso.
    apply (trace_without (grant_of k) (published s) (StockReserved k (g :: l)) Hnogrant).
    - apply (ledger_events_in_trace k). rewrite Hev. apply elem_of_app. right. cbn. left.
    - cbn. by rewrite bool_decide_true. }
  assert (split_of outs = []) as Hsp.
  { apply (no_split_outcomes k (published s)); [done|].
    intros e He. apply (ledger_events_in_trace k). rewrite Hev. apply elem_of_app. by left. }
  pose proof (granted_refused_length outs) as Hlen. rewrite Hg in Hlen. cbn in Hlen.
  assert (length (order_items o) = length outs) as Hn by by rewrite Hit, length_fmap.
  assert (status o = cancelled) as Hst.
  { rewrite (Hset Hsp). unfold settled_status. rewrite Hg.
    destruct (unfulfillable_of outs); [|done].
    cbn in Hlen. destruct (order_items o); [done|]. cbn in Hn. lia. }
  split; [done|]. split; [by rewrite Hf, Hsp, Hg|]. split; [rewrite Hu; lia|].
  destruct (shi_orders s (process_reachable_shi s Hr) k o Ho) as (_ & _ & Hrel).
  unfold getShipments, ship_rel in *. destruct (shipments s !! k); [|done].
  destruct Hrel as ([Hs|Hs] & _); rewrite Hs in Hst; done.
Qed.

Lemma unknown_product_final_reachable : process_reachable unknown_product_final.
Proof.
  apply rtc_r with unknown_product_placed; [|apply turn_step, step_resume].
  apply rtc_once, turn_step, step_create. reflexivity.
Qed.

Lemma refused_order_cancelled_witness :
  cancelled = cancelled
  ∧ @nil OrderItem = []
  ∧ length [mkOrderItem "PROD-9" 4] = length [mkOrderItem "PROD-9" 4]
  ∧ getShipments "order-U" unknown_product_final = None.
Proof.
  apply (refused_order_cancelled unknown_product_final "order-U"
           (mkOrder "order-U" [mkOrderItem "PROD-9" 4] cancelled []
              [mkOrderItem "PROD-9" 4] 0 0)).
  - exact unknown_product_final_reachable.
  - reflexivity.
  - discriminate.
  - reflexivity.
  - reflexivity.
  - reflexivity.
Defined.

(** ** Orders over time *)

Lemma order_grows_refl (o : Order) : order_grows o o.
Proof. split; [apply order_step_refl|done]. Qed.

Lemma order_grows_trans (o1 o2 o3 : Order) :
  order_grows o1 o2 → order_grows o2 o3 → order_grows o1 o3.
Proof.
  intros (Hs1 & Hf1 & Hu1) (Hs2 & Hf2 & Hu2).
  split; [by apply (order_step_trans o1 o2)|]. split; by etrans.
Qed.

Lemma saga_outOfStock_grows (pid : string) (req av t : Z) (o : Order) :
  status o ≠ pending → (is_terminal (status o) → overfull o) →
  order_grows o (saga_outOfStock pid req av t o).
Proof.
  intros Hnp Hterm. split; [by apply saga_outOfStock_step|].
  destruct (saga_outOfStock_fields pid req av t o) as (_ & _ & -> & ->).
  split; [|by apply prefix_app_r]. destruct (0 <? av); [by apply prefix_app_r|done].
Qed.

Lemma saga_stockReserved_grows (items : list OrderItem) (t : Z) (o : Order) :
  items ≠ [] → status o ≠ pending → (is_terminal (status o) → overfull o) →
  order_grows o (saga_stockReserved items t o).
Proof.
  intros Hitems Hnp Hterm. split; [by apply saga_stockReserved_step|].
  destruct (saga_stockReserved_fields items t o) as (_ & _ & -> & ->).
  split; [by apply prefix_app_r|done].
Qed.

Lemma turn_order_grows (k : string) (o : Order) (s s' : State) :
  turn s s' →
  (shipping_inv s ∧ ∃ o1, orders s !! k = Some o1 ∧ order_grows o o1) →
  shipping_inv s' ∧ ∃ o', orders s' !! k = Some o' ∧ order_grows o o'.
Proof.
  apply (turn_handlers
           (λ s, shipping_inv s ∧ ∃ o1, orders s !! k = Some o1 ∧ order_grows o o1)).
  - intros s0 s1 HO HS HP [Hinv Hl]. split; [by apply (shipping_inv_frame s0)|].
    by rewrite HO.
  - intros s0 k0 pid req av [Hinv (o1 & Hk & Hg)].
    split; [by apply publishOutOfStock_shi|].
    unfold publishOutOfStock. set (s1 := record_event _ s0).
    destruct (orders s0 !! k0) as [o0|] eqn:Ho0;
      [|unfold handleOutOfStock; change (orders s1) with (orders s0); rewrite Ho0; eauto].
    destruct (shi_orders s0 Hinv k0 o0 Ho0) as (Hid & Hterm & Hrel).
    rewrite (handleOutOfStock_orders k0 pid req av s1 o0 Ho0 Hid).
    destruct (decide (k0 = k)) as [->|Hne]; [|rewrite lookup_insert_ne by done; eauto].
    rewrite lookup_insert_eq. eexists. split; [reflexivity|].
    assert (o0 = o1) as -> by congruence.
    apply (order_grows_trans o o1); [done|].
    apply saga_outOfStock_grows; [|done]. by apply (ship_rel_not_pending _ _ _ _ Hrel).
  - intros s0 k0 items Hitems [Hinv (o1 & Hk & Hg)].
    split; [by apply publishStockReserved_shi|].
    unfold publishStockReserved. set (s1 := record_event _ s0).
    destruct (orders s0 !! k0) as [o0|] eqn:Ho0;
      [|unfold handleStockReserved; change (orders s1) with (orders s0); rewrite Ho0; eauto].
    destruct (shi_orders s0 Hinv k0 o0 Ho0) as (Hid & Hterm & Hrel).
    rewrite (handleStockReserved_orders k0 items s1 o0 Ho0 Hid).
    destruct (decide (k0 = k)) as [->|Hne]; [|rewrite lookup_insert_ne by done; eauto].
    rewrite lookup_insert_eq. eexists. split; [reflexivity|].
    assert (o0 = o1) as -> by congruence.
    apply (order_grows_trans o o1); [done|].
    apply saga_stockReserved_grows; [done| |done].
    by apply (ship_rel_not_pending _ _ _ _ Hrel).
  - intros s0 id items Hfresh [Hinv (o1 & Hk & Hg)].
    split; [by apply createOrder_shi|].
    rewrite createOrder_lookup, lookup_insert_ne; [eauto|congruence].
  - intros s0 k0 i [Hinv Hl]. split; [by apply processShipment_resume_shi|].
    by destruct (processShipment_resume_frame k0 i s0) as (-> & _).
Qed.

(** X15. Orders are never removed and only grow: from any state the process
    can reach, over any number of further turns, an order stays retrievable
    under its identifier with the same identifier, requested lines and
    creation time; its status is the same or has moved from [processing] to a
    terminal status; and its two accounting lists have only been extended at
    their end. *)
Theorem orders_persist (s s' : State) (k : string) (o : Order) :
  process_reachable s →
  rtc turn s s' →
  getOrder k s = Some o →
  ∃ o', getOrder k s' = Some o'
        ∧ order_id o' = order_id o
        ∧ order_items o' = order_items o
        ∧ createdAt o' = createdAt o
        ∧ (status o' = status o
           ∨ (status o = processing ∧ is_terminal (status o') = true))
        ∧ fulfillableItems o `prefix_of` fulfillableItems o'
        ∧ unfulfillableItems o `prefix_of` unfulfillableItems o'.
Proof.
  unfold getOrder. intros Hr Hsteps Hk.
  assert (shipping_inv s' ∧ ∃ o', orders s' !! k = Some o' ∧ order_grows o o')
    as (_ & o' & Hk' & (Hid & Hit & Hc & Hst) & Hf & Hu).
  { revert s' Hsteps.
    apply (rtc_ind_r (λ s', shipping_inv s'
             ∧ ∃ o', orders s' !! k = Some o' ∧ order_grows o o') s).
    - split; [by apply process_reachable_shi|]. exists o. split; [done|].
      apply order_grows_refl.
    - intros s1 s2 _ Hturn IH. by apply (turn_order_grows k o s1). }
  exists o'. auto 10.
Qed.

Lemma orders_persist_witness :
  ∃ o', getOrder "order-B" scenarioB_delivered = Some o'
        ∧ order_id o' = "order-B"
        ∧ order_items o' = scenarioB_items
        ∧ createdAt o' = 0
        ∧ (status o' = processing
           ∨ (processing = processing ∧ is_terminal (status o') = true))
        ∧ [] `prefix_of` fulfillableItems o'
        ∧ [] `prefix_of` unfulfillableItems o'.
Proof.
  apply (orders_persist scenarioB_placed scenarioB_delivered "order-B"
           (mkOrder "order-B" scenarioB_items processing [] [] 0 0)).
  - apply rtc_once, turn_step, step_create. reflexivity.
  - eapply rtc_l; [apply turn_step, step_resume|].
    eapply rtc_l; [apply turn_step, step_resume|].
    eapply rtc_l; [apply turn_shipment|]. apply rtc_once, turn_shipment.
  - reflexivity.
Defined.

(** X16. A refused line reserves nothing.  When the loop reaches a line whose
    product has a record with less available stock than requested (available
    being [quantity - reserved] as the ledger computes it), the turn
    leaves every inventory record as it was (the available part is not
    reserved), publishes [OutOfStock] with the available amount, and, when
    that amount is positive, the saga still appends it to the order's
    fulfillable list. *)
Theorem refused_line_reserves_nothing (s : State) (k : string) (item : OrderItem)
    (rest res : list OrderItem) (stock : InventoryItem) :
  process_reachable s →
  tasks s !! k = Some (mkTask (item :: rest) res) →
  inventory s !! productId item = Some stock →
  js_sub (inv_quantity stock) (inv_reserved stock) < quantity item →
  inventory (run_action (Resume k) s) = inventory s
  ∧ OutOfStock k (productId item) (quantity item) (js_sub (inv_quantity stock) (inv_reserved stock))
      ∈ published (run_action (Resume k) s)
  ∧ ∃ o o', getOrder k s = Some o
            ∧ getOrder k (run_action (Resume k) s) = Some o'
            ∧ (0 < js_sub (inv_quantity stock) (inv_reserved stock) →
               (fulfillableItems o
                  ++ [mkOrderItem (productId item) (js_sub (inv_quantity stock) (inv_reserved stock))])
                 `prefix_of` fulfillableItems o').
Proof.
  intros Hr Htask Hstock Hshort.
  pose proof (process_reachable_inv s Hr) as Hinv.
  assert (∃ o, orders s !! k = Some o) as [o Ho].
  { destruct (orders s !! k) eqn:E; [eauto|].
    destruct (si_unknown s Hinv k E) as [Hn _]. congruence. }
  destruct (si_orders s Hinv k o Ho) as [outs Hoi].
  pose proof (oi_id _ _ _ _ _ Hoi) as Hid.
  set (av := js_sub (inv_quantity stock) (inv_reserved stock)) in *.
  cbn [run_action]. rewrite Htask.
  pose proof (tryReserveStock_free (productId item) (quantity item) s
                (si_locks s Hinv _)) as Htry.
  rewrite Hstock in Htry. fold av in Htry.
  destruct (Z.leb_spec (quantity item) av) as [|_]; [lia|].
  split.
  { destruct (resume_inventory_tasks k item rest res s) as [-> _].
    cbn [stock_call]. by rewrite Htry. }
  unfold handleOrderPlaced_resume. cbn [task_pending task_reservations].
  rewrite Htry. cbn [success availableQuantity].
  set (s1 := set_lockMap _ (set_lockMap _ s)).
  assert (orders s1 !! k = Some o) as Ho1 by done.
  destruct (publishOutOfStock_spec k (productId item) (quantity item) av s1 o Ho1 Hid)
    as (HO & _ & _ & HN & HE).
  set (s2 := publishOutOfStock k (productId item) (quantity item) av s1) in *.
  set (o1 := saga_outOfStock (productId item) (quantity item) av (now s1) o) in *.
  destruct (saga_outOfStock_fields (productId item) (quantity item) av (now s1) o)
    as (Hid1 & _ & _ & Hf1). fold o1 in Hid1, Hf1. rewrite Hid in Hid1.
  assert (OutOfStock k (productId item) (quantity item) av ∈ ledger_events k (published s2))
    as Hin2.
  { rewrite HE, decide_True by done. apply elem_of_app. right. left. }
  assert (0 < av →
          (fulfillableItems o ++ [mkOrderItem (productId item) av])
            `prefix_of` fulfillableItems o1) as Hpre1.
  { intros Hav. rewrite Hf1. by destruct (Z.ltb_spec 0 av); [|lia]. }
  assert (orders s2 !! k = Some o1) as Ho2 by by rewrite HO, lookup_insert_eq.
  assert (∀ f, published (set_tasks f s2) = published s2
               ∧ orders (set_tasks f s2) = orders s2) as Hset by done.
  destruct rest as [|item' rest'].
  - unfold handleOrderPlaced_finish. destruct (0 <? length res)%nat.
    + destruct (publishStockReserved_spec k res s2 o1 Ho2 Hid1) as (HO' & _ & _ & _ & HE').
      unfold getOrder. cbn [published orders set_tasks]. rewrite HO', lookup_insert_eq.
      split.
      { apply (ledger_events_in_trace k). rewrite HE'. apply elem_of_app. by left. }
      exists o, (saga_stockReserved res (now s2) o1). split; [done|]. split; [done|].
      intros Hav. etrans; [by apply Hpre1|].
      destruct (saga_stockReserved_fields res (now s2) o1) as (_ & _ & _ & ->).
      by apply prefix_app_r.
    + unfold getOrder. cbn [published orders set_tasks].
      split; [by apply (ledger_events_in_trace k)|]. exists o, o1. done.
  - unfold getOrder. cbn [published orders set_tasks].
    split; [by apply (ledger_events_in_trace k)|]. exists o, o1. done.
Qed.

Lemma refused_line_reserves_nothing_witness :
  inventory (run_action (Resume "order-S") short_stock_placed) = inventory short_stock_placed
  ∧ OutOfStock "order-S" "PROD-2" 7 (js_sub 5 0)
      ∈ published (run_action (Resume "order-S") short_stock_placed)
  ∧ ∃ o o', getOrder "order-S" short_stock_placed = Some o
            ∧ getOrder "order-S" (run_action (Resume "order-S") short_stock_placed) = Some o'
            ∧ (0 < js_sub 5 0 →
               (fulfillableItems o ++ [mkOrderItem "PROD-2" (js_sub 5 0)])
                 `prefix_of` fulfillableItems o').
Proof.
  apply (refused_line_reserves_nothing short_stock_placed "order-S"
           (mkOrderItem "PROD-2" 7) [] [] (mkInventoryItem "PROD-2" 5 0)).
  - exact short_stock_reachable.
  - reflexivity.
  - reflexivity.
  - vm_compute. reflexivity.
Defined.

(** ** Placing an order and running its lines *)

(** X17. What [createOrder] touches: it stores the new order and publishes
    [OrderPlaced] with its identifier and lines, and for an order with at
    least one line it leaves one invocation of the inventory handler
    suspended, with every line pending and nothing reserved.  Every other
    order, every other suspended invocation, the inventory, the locks and the
    shipments are as before: nothing is reserved or shipped by the time
    [createOrder] returns. *)
Theorem createOrder_effect (id : string) (items : list OrderItem) (s : State) :
  getOrder id (createOrder id items s) = Some (mkOrder id items processing [] [] (now s) (now s))
  ∧ (∀ k, k ≠ id → getOrder k (createOrder id items s) = getOrder k s)
  ∧ published (createOrder id items s) = published s ++ [OrderPlaced id items]
  ∧ match items with
    | [] => tasks (createOrder id items s) = tasks s
    | _ :: _ => tasks (createOrder id items s) !! id = Some (mkTask items [])
    end
  ∧ (∀ k, k ≠ id → tasks (createOrder id items s) !! k = tasks s !! k)
  ∧ inventory (createOrder id items s) = inventory s
  ∧ lockMap (createOrder id items s) = lockMap s
  ∧ shipments (createOrder id items s) = shipments s.
Proof.
  destruct (createOrder_frame id items s) as (HL & HI & HP & HT).
  split; [unfold getOrder; by rewrite createOrder_lookup, lookup_insert_eq|].
  split; [intros k Hk; unfold getOrder; by rewrite createOrder_lookup, lookup_insert_ne|].
  split; [done|].
  split; [rewrite HT; destruct items; [done|by rewrite lookup_insert_eq]|].
  split; [intros k Hk; rewrite HT; destruct items; [done|by rewrite lookup_insert_ne]|].
  split; [done|]. split; [done|]. apply createOrder_shipments.
Qed.

Lemma resumes_reachable (k : string) (n : nat) (s : State) :
  process_reachable s → process_reachable (run (replicate n (Resume k)) s).
Proof.
  revert s. induction n as [|n IH]; intros s Hr; [done|].
  cbn [replicate run foldl]. apply IH.
  apply rtc_r with s; [done|]. apply turn_step, step_resume.
Qed.

(** X18. The inventory handler of an order finishes in as many turns as the
    order has pending lines: from any state the process can reach, [n]
    turns given to the handler of an order deal with its first [n] pending
    lines, in order, and after as many turns as there were pending lines no
    line is pending and no invocation is suspended for the order. *)
Theorem order_lines_run_out (s : State) (k : string) (n : nat) :
  process_reachable s →
  pending_of k (run (replicate n (Resume k)) s) = drop n (pending_of k s)
  ∧ pending_of k (run (replicate (length (pending_of k s)) (Resume k)) s) = []
  ∧ tasks (run (replicate (length (pending_of k s)) (Resume k)) s) !! k = None.
Proof.
  intros Hr.
  assert (∀ m s0, process_reachable s0 →
            pending_of k (run (replicate m (Resume k)) s0) = drop m (pending_of k s0))
    as Hdrop.
  { induction m as [|m IH]; intros s0 Hr0; [by rewrite drop_0|].
    cbn [replicate run foldl]. fold (run (replicate m (Resume k)) (run_action (Resume k) s0)).
    rewrite IH by (apply rtc_r with s0; [done|apply turn_step, step_resume]).
    cbn [run_action].
    destruct (tasks s0 !! k) as [t|] eqn:Ht.
    - pose proof (process_reachable_inv s0 Hr0) as Hinv.
      assert (∃ o, orders s0 !! k = Some o) as [o Ho].
      { destruct (orders s0 !! k) eqn:E; [eauto|].
        destruct (si_unknown s0 Hinv k E) as [Hn _]. congruence. }
      destruct (si_orders s0 Hinv k o Ho) as [outs Hoi]. rewrite Ht in Hoi.
      destruct (oi_task _ _ _ _ _ Hoi t eq_refl) as [Hne _].
      destruct (task_pending t) as [|item rest] eqn:Hp; [done|].
      rewrite (resume_pending k t s0 item rest (si_locks s0 Hinv _) Hp).
      unfold pending_of. by rewrite Ht, Hp.
    - unfold pending_of. rewrite Ht. by destruct m. }
  split; [by apply Hdrop|].
  assert (pending_of k (run (replicate (length (pending_of k s)) (Resume k)) s) = []) as Hnil.
  { rewrite Hdrop by done. by apply drop_all. }
  split; [done|].
  pose proof (process_reachable_inv _ (resumes_reachable k (length (pending_of k s)) s Hr))
    as Hinv.
  set (s' := run _ s) in *.
  destruct (tasks s' !! k) as [t|] eqn:Ht; [|done]. exfalso.
  assert (∃ o, orders s' !! k = Some o) as [o Ho].
  { destruct (orders s' !! k) eqn:E; [eauto|].
    destruct (si_unknown s' Hinv k E) as [Hn _]. congruence. }
  destruct (si_orders s' Hinv k o Ho) as [outs Hoi]. rewrite Ht in Hoi.
  destruct (oi_task _ _ _ _ _ Hoi t eq_refl) as [Hne _].
  unfold pending_of in Hnil. rewrite Ht in Hnil. done.
Qed.

Lemma order_lines_run_out_witness :
  pending_of "order-B" (run (replicate 1 (Resume "order-B")) scenarioB_placed)
    = drop 1 (pending_of "order-B" scenarioB_placed)
  ∧ pending_of "order-B"
      (run (replicate (length (pending_of "order-B" scenarioB_placed)) (Resume "order-B"))
         scenarioB_placed) = []
  ∧ tasks (run (replicate (length (pending_of "order-B" scenarioB_placed))
                  (Resume "order-B")) scenarioB_placed) !! "order-B" = None.
Proof.
  apply (order_lines_run_out scenarioB_placed "order-B" 1).
  apply rtc_once, turn_step, step_create. reflexivity.
Defined.

(** * The saga on the whole process *)

(** ** Any number of turns *)

Lemma turns_inv (s s' : State) : rtc turn s s' → saga_inv s → saga_inv s'.
Proof. induction 1; eauto using turn_inv. Qed.

Lemma turns_shi (s s' : State) : rtc turn s s' → shipping_inv s → shipping_inv s'.
Proof. induction 1; eauto using turn_shi. Qed.

Lemma turns_order_grows (k : string) (o : Order) (s s' : State) :
  shipping_inv s → rtc turn s s' → orders s !! k = Some o →
  ∃ o', orders s' !! k = Some o' ∧ order_grows o o'.
Proof.
  intros Hshi Hturns Ho.
  assert (shipping_inv s' ∧ ∃ o', orders s' !! k = Some o' ∧ order_grows o o') as [_ ?];
    [|done].
  revert s' Hturns.
  apply (rtc_ind_r (λ s', shipping_inv s'
           ∧ ∃ o', orders s' !! k = Some o' ∧ order_grows o o') s).
  - split; [done|]. exists o. split; [done|apply order_grows_refl].
  - intros s1 s2 _ Hturn IH. by apply (turn_order_grows k o s1).
Qed.

(** An order without lines: nothing is ever published about it by the
    ledger and it stays as [createOrder] left it. *)
Lemma empty_order_stays (id : string) (s s' : State) :
  saga_inv s → shipping_inv s → orders s !! id = None →
  rtc turn (createOrder id [] s) s' →
  ∃ o, orders s' !! id = Some o
       ∧ order_items o = []
       ∧ status o = processing
       ∧ fulfillableItems o = []
       ∧ unfulfillableItems o = []
       ∧ tasks s' !! id = None
       ∧ ledger_events id (published s') = [].
Proof.
  intros Hinv Hshi Hfresh Hturns.
  pose proof (createOrder_inv id [] s Hfresh Hinv) as Hinv0.
  pose proof (createOrder_shi id [] s Hfresh Hshi) as Hshi0.
  assert (orders (createOrder id [] s) !! id
          = Some (mkOrder id [] processing [] [] (now s) (now s))) as Ho0.
  { by rewrite createOrder_lookup, lookup_insert_eq. }
  destruct (turns_order_grows id _ _ s' Hshi0 Hturns Ho0)
    as (o & Ho & (_ & Hitems & _) & _).
  cbn in Hitems.
  destruct (si_orders s' (turns_inv _ _ Hturns Hinv0) id o Ho) as [outs Hoi].
  destruct Hoi as [Hid Hit Htask Hev Hu Hf Hnp Hterm Hset].
  rewrite Hitems in Hit. symmetry in Hit. apply app_eq_nil in Hit as [Houts Hpend].
  apply fmap_nil_inv in Houts. subst outs.
  destruct (tasks s' !! id) as [t|] eqn:Ht.
  { destruct (Htask t eq_refl) as [Hne _]. done. }
  exists o. cbn in *. rewrite Hev. auto 10.
Qed.


(** ** Order of the reservations and of the ledger's events (C5) *)



(** ** An order without lines (C10) *)

(** C10. In every state of the process [createOrder] accepts an empty list
    of items: it returns an order with status [processing] and leaves no
    invocation of the inventory handler suspended.  From then on, whatever
    turns the process takes (turns of the three services, shipment timers
    included), the ledger never publishes [StockReserved] or [OutOfStock]
    about this order (these events are the only callers of the saga handlers,
    hence of the completion check), its two accounting lists stay empty and
    its status stays [processing], which is not terminal. *)
Theorem empty_order_never_terminal (id : string) (s s' : State) :
  process_reachable s →
  orders s !! id = None →
  rtc turn (createOrder id [] s) s' →
  (∃ o0, getOrder id (createOrder id [] s) = Some o0
         ∧ order_items o0 = [] ∧ status o0 = processing)
  ∧ tasks (createOrder id [] s) = tasks s
  ∧ published (createOrder id [] s) = published s ++ [OrderPlaced id []]
  ∧ ∃ o, getOrder id s' = Some o
         ∧ status o = processing
         ∧ is_terminal (status o) = false
         ∧ fulfillableItems o = []
         ∧ unfulfillableItems o = []
         ∧ tasks s' !! id = None
         ∧ ledger_events id (published s') = [].
Proof.
  intros Hreach Hfresh Hturns.
  split.
  { unfold getOrder. rewrite createOrder_lookup, lookup_insert_eq. eauto. }
  destruct (createOrder_frame id [] s) as (_ & _ & HP & HT).
  split; [exact HT|]. split; [exact HP|].
  destruct (empty_order_stays id s s' (process_reachable_inv s Hreach)
              (process_reachable_shi s Hreach) Hfresh Hturns)
    as (o & Ho & Hit & Hst & Hf & Hu & Ht & Hev).
  exists o. rewrite Hst. done.
Qed.

Lemma empty_order_never_terminal_witness :
  (∃ o0, getOrder "order-E" (createOrder "order-E" [] scenarioB_final) = Some o0
         ∧ order_items o0 = [] ∧ status o0 = processing)
  ∧ tasks (createOrder "order-E" [] scenarioB_final) = tasks scenarioB_final
  ∧ published (createOrder "order-E" [] scenarioB_final)
      = published scenarioB_final ++ [OrderPlaced "order-E" []]
  ∧ ∃ o, getOrder "order-E"
           (processShipment_resume "order-B" 0 (createOrder "order-E" [] scenarioB_final))
         = Some o
         ∧ status o = processing
         ∧ is_terminal (status o) = false
         ∧ fulfillableItems o = []
         ∧ unfulfillableItems o = []
         ∧ tasks (processShipment_resume "order-B" 0
                    (createOrder "order-E" [] scenarioB_final)) !! "order-E" = None
         ∧ ledger_events "order-E"
             (published (processShipment_resume "order-B" 0
                           (createOrder "order-E" [] scenarioB_final))) = [].
Proof.
  apply (empty_order_never_terminal "order-E" scenarioB_final).
  - exact scenarioB_final_process_reachable.
  - reflexivity.
  - apply rtc_once, turn_shipment.
Defined.

(** ** Events delivered after the terminal status (C4) *)

(** C4 (amended).  In every state of the process, for every order that has
    reached a terminal status, the delivery of a further [OutOfStock] event,
    or of a further [StockReserved] event that carries at least one line,
    leaves the status of the order unchanged and causes no further
    publication and no change of the shipments.  The event is not rejected,
    though: the handler still appends the lines of the event to the
    accounting lists of the order and sets [updatedAt] to the time of the
    delivery; identifier, requested lines and creation time stay. *)
Theorem terminal_status_stable (s : State) (orderId : string) (o : Order) :
  process_reachable s →
  orders s !! orderId = Some o →
  is_terminal (status o) = true →
  (∀ pid req av,
     ∃ o', orders (publish (OutOfStock orderId pid req av) s) !! orderId = Some o'
           ∧ status o' = status o
           ∧ order_id o' = order_id o
           ∧ order_items o' = order_items o
           ∧ createdAt o' = createdAt o
           ∧ updatedAt o' = now s
           ∧ unfulfillableItems o' =
               unfulfillableItems o ++ [mkOrderItem pid (js_sub req av)]
           ∧ fulfillableItems o' =
               (if 0 <? av then fulfillableItems o ++ [mkOrderItem pid av]
                else fulfillableItems o)
           ∧ published (publish (OutOfStock orderId pid req av) s) =
               published s ++ [OutOfStock orderId pid req av]
           ∧ shipments (publish (OutOfStock orderId pid req av) s) = shipments s)
  ∧ (∀ items,
       items ≠ [] →
       ∃ o', orders (publish (StockReserved orderId items) s) !! orderId = Some o'
             ∧ status o' = status o
             ∧ order_id o' = order_id o
             ∧ order_items o' = order_items o
             ∧ createdAt o' = createdAt o
             ∧ updatedAt o' = now s
             ∧ unfulfillableItems o' = unfulfillableItems o
             ∧ fulfillableItems o' = fulfillableItems o ++ items
             ∧ published (publish (StockReserved orderId items) s) =
                 published s ++ [StockReserved orderId items]
             ∧ shipments (publish (StockReserved orderId items) s) = shipments s).
Proof.
  intros Hreach Ho Hterm.
  destruct (si_orders s (process_reachable_inv s Hreach) orderId o Ho) as [outs Hoi].
  assert (length (order_items o)
          ≤ length (fulfillableItems o) + length (unfulfillableItems o))%nat as Hfull.
  { apply (oi_terminal _ _ _ _ _ Hoi). by rewrite Hterm. }
  split.
  - intros pid req av. cbn [publish]. unfold publishOutOfStock.
    rewrite (handleOutOfStock_overfull orderId pid req av
              (record_event (OutOfStock orderId pid req av) s) o Ho Hfull).
    cbn. rewrite lookup_insert_eq. eauto 12.
  - intros items Hitems. cbn [publish]. unfold publishStockReserved.
    rewrite (handleStockReserved_overfull orderId items
              (record_event (StockReserved orderId items) s) o Ho Hitems Hfull).
    cbn. rewrite lookup_insert_eq. eauto 12.
Qed.

Lemma terminal_status_stable_witness :
  (∀ pid req av,
     ∃ o', orders (publish (OutOfStock "order-B" pid req av) scenarioB_delivered) !! "order-B"
             = Some o'
           ∧ status o' = partial
           ∧ order_id o' = "order-B"
           ∧ order_items o' = scenarioB_items
           ∧ createdAt o' = 0
           ∧ updatedAt o' = now scenarioB_delivered
           ∧ unfulfillableItems o' =
               [mkOrderItem "PROD-2" 2] ++ [mkOrderItem pid (js_sub req av)]
           ∧ fulfillableItems o' =
               (if 0 <? av
                then [mkOrderItem "PROD-2" 5; mkOrderItem "PROD-3" 3] ++ [mkOrderItem pid av]
                else [mkOrderItem "PROD-2" 5; mkOrderItem "PROD-3" 3])
           ∧ published (publish (OutOfStock "order-B" pid req av) scenarioB_delivered) =
               published scenarioB_delivered ++ [OutOfStock "order-B" pid req av]
           ∧ shipments (publish (OutOfStock "order-B" pid req av) scenarioB_delivered)
               = shipments scenarioB_delivered)
  ∧ (∀ items,
       items ≠ [] →
       ∃ o', orders (publish (StockReserved "order-B" items) scenarioB_delivered) !! "order-B"
               = Some o'
             ∧ status o' = partial
             ∧ order_id o' = "order-B"
             ∧ order_items o' = scenarioB_items
             ∧ createdAt o' = 0
             ∧ updatedAt o' = now scenarioB_delivered
             ∧ unfulfillableItems o' = [mkOrderItem "PROD-2" 2]
             ∧ fulfillableItems o' =
                 [mkOrderItem "PROD-2" 5; mkOrderItem "PROD-3" 3] ++ items
             ∧ published (publish (StockReserved "order-B" items) scenarioB_delivered) =
                 published scenarioB_delivered ++ [StockReserved "order-B" items]
             ∧ shipments (publish (StockReserved "order-B" items) scenarioB_delivered)
                 = shipments scenarioB_delivered).
Proof.
  apply (terminal_status_stable scenarioB_delivered "order-B"
           (mkOrder "order-B" scenarioB_items partial
              [mkOrderItem "PROD-2" 5; mkOrderItem "PROD-3" 3] [mkOrderItem "PROD-2" 2] 0 0)).
  - exact scenarioB_delivered_process_reachable.
  - vm_compute. reflexivity.
  - reflexivity.
Defined.

(** C4, as stated, fails on the code: the handlers have no guard on the
    status.  In scenario B the order is [partial] once the refusal of its
    first line is handled; the [StockReserved] event that follows is handled
    all the same and appends a line to the fulfillable list.  And a
    [StockReserved] event without lines, delivered for the cancelled order of
    [unknown_product_final], moves its status to [partial]. *)
Lemma terminal_order_still_changes :
  getOrder "order-B" scenarioB_refused =
    Some (mkOrder "order-B" scenarioB_items partial
            [mkOrderItem "PROD-2" 5] [mkOrderItem "PROD-2" 2] 0 0)
  ∧ getOrder "order-B"
      (publish (StockReserved "order-B" [mkOrderItem "PROD-3" 3]) scenarioB_refused) =
    Some (mkOrder "order-B" scenarioB_items partial
            [mkOrderItem "PROD-2" 5; mkOrderItem "PROD-3" 3] [mkOrderItem "PROD-2" 2] 0 0)
  ∧ getOrder "order-B"
      (publish (StockReserved "order-B" [mkOrderItem "PROD-3" 3]) scenarioB_refused)
    ≠ getOrder "order-B" scenarioB_refused
  ∧ (status <$> getOrder "order-U" unknown_product_final) = Some cancelled
  ∧ (status <$> getOrder "order-U" (publish (StockReserved "order-U" []) unknown_product_final))
    = Some partial.
Proof.
  split; [vm_compute; reflexivity|].
  split; [vm_compute; reflexivity|].
  split; [|split; vm_compute; reflexivity].
  intros Heq. vm_compute in Heq. discriminate Heq.
Qed.

(** ** The terminal transition (C2) *)

(** C2 (amended).  In every state of the process, for an order stored under
    [orderId]:
    - over any number of turns of the process (shipment timers included) its
      status either stays or has moved from [processing] to a terminal
      status, so the status becomes terminal at most once and is never
      changed afterwards;
    - a handler of the saga changes the status only to a terminal status and
      only when it finds the order complete,
      [len(fulfillable) + len(unfulfillable) = len(items)], after its update
      of the lists;
    - when the order has at least one line, no line is pending any more, and
      every refused line found no stock at all (no [OutOfStock] event about
      the order reports [available > 0]), the order is complete and its
      status is terminal;
    - a turn given to the inventory handler of the order deals with exactly
      one pending line, so that the pending lines run out after as many
      turns as there are lines. *)
Theorem terminal_transition (s : State) (orderId : string) (o : Order) :
  process_reachable s →
  orders s !! orderId = Some o →
  (∀ s', rtc turn s s' →
     ∃ o', orders s' !! orderId = Some o'
           ∧ (status o' = status o
              ∨ (status o = processing ∧ is_terminal (status o') = true)))
  ∧ (∀ pid req av,
       ∃ o', orders (publish (OutOfStock orderId pid req av) s) !! orderId = Some o'
             ∧ (status o' ≠ status o →
                is_terminal (status o') = true ∧ isOrderComplete o' = true))
  ∧ (∀ items,
       ∃ o', orders (publish (StockReserved orderId items) s) !! orderId = Some o'
             ∧ (status o' ≠ status o →
                is_terminal (status o') = true ∧ isOrderComplete o' = true))
  ∧ (order_items o ≠ [] →
     pending_of orderId s = [] →
     forallb (no_split_event orderId) (published s) = true →
     is_terminal (status o) = true ∧ isOrderComplete o = true)
  ∧ (∀ item rest,
       pending_of orderId s = item :: rest →
       pending_of orderId (run_action (Resume orderId) s) = rest).
Proof.
  intros Hreach Ho. pose proof (process_reachable_inv s Hreach) as Hinv.
  destruct (si_orders s Hinv orderId o Ho) as [outs Hoi].
  pose proof (oi_id _ _ _ _ _ Hoi) as Hid.
  split; [|split; [|split; [|split]]].
  - intros s' Hturns.
    destruct (turns_order_grows orderId o s s' (process_reachable_shi s Hreach) Hturns Ho)
      as (o' & Ho' & (_ & _ & _ & Hst) & _).
    by exists o'.
  - intros pid req av. cbn [publish].
    destruct (publishOutOfStock_spec orderId pid req av s o Ho Hid) as (-> & _).
    rewrite lookup_insert_eq. eexists. split; [reflexivity|].
    destruct (saga_outOfStock_status pid req av (now s) o) as [[Hc Hst]|[Hc Hst]]; [|done].
    intros _. split; [|done]. rewrite Hst. by destruct (0 <? length _)%nat.
  - intros items. cbn [publish].
    destruct (publishStockReserved_spec orderId items s o Ho Hid) as (-> & _).
    rewrite lookup_insert_eq. eexists. split; [reflexivity|].
    destruct (saga_stockReserved_status items (now s) o) as [[Hc Hst]|[Hc Hst]]; [|done].
    intros _. split; [|done]. rewrite Hst. by destruct (0 <? length _)%nat.
  - intros Hitems Hpend Hnosplit. rewrite pending_of_task in Hpend.
    destruct Hoi as [_ Hit Htask Hev Hu Hf Hnp Hterm Hset].
    destruct (tasks s !! orderId) as [t|] eqn:Ht.
    { destruct (Htask t eq_refl) as [Hne _]. done. }
    cbn [from_option] in *. rewrite app_nil_r in Hit.
    assert (split_of outs = []) as Hsplit.
    { apply (no_split_outcomes orderId (published s)); [done|].
      intros e He.
      assert (e ∈ ledger_events orderId (published s)) as Hin.
      { rewrite Hev. apply elem_of_app. by left. }
      unfold ledger_events in Hin. by apply list_elem_of_filter in Hin as [_ ?]. }
    pose proof (granted_refused_length outs) as Hlen.
    assert (length (order_items o) = length outs) as Hn by by rewrite Hit, length_fmap.
    split.
    + rewrite (Hset Hsplit). unfold settled_status.
      destruct (granted_lines outs), (unfulfillable_of outs); try done.
      cbn in Hlen. destruct (order_items o); [done|]. cbn in Hn. lia.
    + unfold isOrderComplete. apply Nat.eqb_eq.
      rewrite Hf, Hu, Hsplit. cbn [app]. lia.
  - intros item rest Hpend. cbn [run_action].
    destruct (tasks s !! orderId) as [t|] eqn:Ht;
      [|by rewrite pending_of_task, Ht in Hpend].
    rewrite pending_of_task, Ht in Hpend. cbn in Hpend.
    apply (resume_pending orderId t s item rest); [apply Hinv|done].
Qed.

Lemma terminal_transition_witness :
  is_terminal fulfilled = true
  ∧ isOrderComplete (mkOrder "order-A" scenarioA_items fulfilled scenarioA_items [] 0 0) = true.
Proof.
  destruct (terminal_transition scenarioA_final "order-A"
              (mkOrder "order-A" scenarioA_items fulfilled scenarioA_items [] 0 0)
              scenarioA_final_process_reachable) as (_ & _ & _ & Hsettled & _).
  - vm_compute. reflexivity.
  - apply Hsettled.
    + discriminate.
    + vm_compute. reflexivity.
    + vm_compute. reflexivity.
Defined.

(** C2, as stated, fails on the code: an order without lines is created with
    status [processing] and no continuation of the process ever makes it
    terminal. *)
Lemma empty_order_not_terminal :
  (status <$> getOrder "order-E" empty_order_placed) = Some processing
  ∧ ¬ ∃ s, rtc turn empty_order_placed s
           ∧ ∃ o, getOrder "order-E" s = Some o ∧ is_terminal (status o) = true.
Proof.
  split; [vm_compute; reflexivity|].
  intros (s & Hturns & o & Ho & Hterm).
  destruct (empty_order_stays "order-E" initial s initial_inv initial_shi)
    as (o' & Ho' & _ & Hst & _); [reflexivity|exact Hturns|].
  unfold getOrder in Ho. rewrite Ho in Ho'. injection Ho' as <-.
  rewrite Hst in Hterm. discriminate.
Qed.
